(** * rester: the generic HTTP request adapter, its encoders and its error model

    A shallow embedding of the Go packages [errorsx], [encoder], [slogx],
    [httpx] and [health], followed by the properties of the adapter.

    Conventions.
    - Go's [int] is [Z]; the code only compares and stores status codes.
    - A pointer that the code may leave nil is an [option]; a pointer that is
      always the address of a freshly built struct is the struct itself.
    - Calls on the response writer and on a logger are recorded, in program
      order, in a trace of [event]s; a run-time panic ends the trace.  A
      computation sees the calls made before it, since what the response
      writer answers depends on them.
    - The standard library ([errors.As], [encoding/json], [encoding/xml],
      [net/http]) is not part of the repository: what the code needs of it is
      modelled after its documentation, and the two marshalers are taken as
      parameters (classes [JsonLib] and [XmlLib]).
    - The response writer follows the server of net/http: [WriteHeader]
      panics on a first status outside 100..999, and [Write] refuses a body
      after a status that admits none.  The headers the server sends are not
      modelled, nor that it keeps the body of an answer to a HEAD request to
      itself, nor a write that fails because the connection is lost. *)

From Stdlib Require Import String Ascii List ZArith Lia Bool.
Import ListNotations.

Open Scope string_scope.
Open Scope Z_scope.

(* ================================================================== *)
(** ** Package errorsx *)
(* ================================================================== *)

Module errorsx.

(** [type Errorx struct { code int; isInternal bool; message string }] *)
Record Errorx : Type := mkErrorx
  { code : Z
  ; isInternal : bool
  ; message : string }.

Definition Error (e : Errorx) : string := message e.
Definition Internal (e : Errorx) : bool := isInternal e.
Definition Code (e : Errorx) : Z := code e.

Definition New (isInternal : bool) (code : Z) (message : string) : Errorx :=
  {| isInternal := isInternal; code := code; message := message |}.

(** A non-nil Go [error] value, by what [errors.As] can observe of it:
    - [Opaque]: any error without an [Unwrap] method ([errors.New], ...);
    - [Classified]: a [*Errorx] (which has no [Unwrap] method);
    - [Wrap]: an error whose [Unwrap() error] returns [inner]
      ([fmt.Errorf] with one [%w]);
    - [Join]: an error whose [Unwrap() []error] returns [inners]
      ([errors.Join], [fmt.Errorf] with several [%w]).
    The string is what the value's own [Error()] method returns.  A
    [*Errorx] stored in an error is the address of a struct, as [New]
    returns it. *)
#[warnings="-register-all"]
Inductive error : Type :=
| Opaque (msg : string)
| Classified (e : Errorx)
| Wrap (msg : string) (inner : error)
| Join (msg : string) (inners : list error).

(** [err.Error()] *)
Definition error_Error (err : error) : string :=
  match err with
  | Opaque msg => msg
  | Classified e => Error e
  | Wrap msg _ => msg
  | Join msg _ => msg
  end.

(** [errors.As(err, &rErr)] for a target of type [**Errorx], on a non-nil
    [err]: the loop of the standard library, which tests the error itself,
    then follows [Unwrap() error], or tries the elements of
    [Unwrap() []error] from left to right, depth first. *)
Fixpoint errors_as (err : error) : option Errorx :=
  match err with
  | Classified e => Some e
  | Opaque _ => None
  | Wrap _ inner => errors_as inner
  | Join _ inners =>
      (fix each (l : list error) : option Errorx :=
         match l with
         | [] => None
         | x :: rest =>
             match errors_as x with
             | Some e => Some e
             | None => each rest
             end
         end) inners
  end.

(** [errors.As] proper: a nil error matches nothing and leaves the target
    untouched. *)
Definition errors_As (err : option error) (target : option Errorx)
  : option Errorx * bool :=
  match err with
  | None => (target, false)
  | Some err =>
      match errors_as err with
      | Some e => (Some e, true)
      | None => (target, false)
      end
  end.

(** [func As(err error) ( *Errorx, bool)] *)
Definition As (err : option error) : option Errorx * bool :=
  let rErr : option Errorx := None in
  let '(rErr, ok) := errors_As err rErr in
  (rErr, ok).

(** The wrap chain of an error, as the spec speaks of it: the error, then
    what it wraps, in the order [errors.As] visits them. *)
Fixpoint chain (err : error) : list error :=
  err ::
  match err with
  | Wrap _ inner => chain inner
  | Join _ inners =>
      (fix each (l : list error) : list error :=
         match l with
         | [] => []
         | x :: rest => (chain x ++ each rest)%list
         end) inners
  | _ => []
  end.

(** The first classified error of a list of errors. *)
Fixpoint first_classified (l : list error) : option Errorx :=
  match l with
  | [] => None
  | Classified e :: _ => Some e
  | _ :: rest => first_classified rest
  end.

Definition is_classified (err : error) : bool :=
  match err with Classified _ => true | _ => false end.

(** No error of the list is classified. *)
Definition unclassified (l : list error) : Prop :=
  Forall (fun x => is_classified x = false) l.

End errorsx.

Import errorsx.

Section error_induction.

Variable P : error -> Prop.
Hypothesis P_Opaque : forall msg, P (Opaque msg).
Hypothesis P_Classified : forall e, P (Classified e).
Hypothesis P_Wrap : forall msg inner, P inner -> P (Wrap msg inner).
Hypothesis P_Join : forall msg inners, Forall P inners -> P (Join msg inners).

(** Induction on an error together with the errors it joins. *)
Fixpoint error_nested_ind (err : error) : P err :=
  match err with
  | Opaque msg => P_Opaque msg
  | Classified e => P_Classified e
  | Wrap msg inner => P_Wrap msg inner (error_nested_ind inner)
  | Join msg inners =>
      P_Join msg inners
        ((fix all (l : list error) : Forall P l :=
            match l with
            | [] => Forall_nil P
            | x :: rest => Forall_cons x (error_nested_ind x) (all rest)
            end) inners)
  end.

End error_induction.

(* ================================================================== *)
(** ** Run-time values, recorded calls and effects *)
(* ================================================================== *)

(** [type DefaultResponse struct { Message string `json:"message"` }],
    declared in package httpx; it stands here because the dynamic values
    below mention it. *)
Record DefaultResponse : Type := mkDefaultResponse { Message : string }.

(** A Go channel value (its identity); no encoder of the standard library
    accepts one. *)
Record Chan : Type := mkChan { chan_id : nat }.

(** The dynamic values ([any]) that reach an encoder or a logger in this
    program: a string, a [DefaultResponse], an error value (a [*Errorx] is
    [AnyError (Classified e)]), and, for a response type that cannot be
    serialised, a channel. *)
Inductive any : Type :=
| AnyString (s : string)
| AnyDefaultResponse (r : DefaultResponse)
| AnyError (err : error)
| AnyChan (c : Chan).

(** How a static Go type is boxed into [any]. *)
Class ToAny (T : Type) : Type := to_any : T -> any.

#[export] Instance DefaultResponse_ToAny : ToAny DefaultResponse := AnyDefaultResponse.
#[export] Instance string_ToAny : ToAny string := AnyString.
#[export] Instance Chan_ToAny : ToAny Chan := AnyChan.

Module slog.

(** [slog.Level] *)
Definition Level : Type := Z.
Definition LevelInfo : Level := 0.
Definition LevelError : Level := 8.

(** The sink of a log handler: [os.Stdout] or another writer. *)
Inductive Sink : Type :=
| Stdout
| OtherSink (name : string).

(** [slog.NewJSONHandler(w, &slog.HandlerOptions{Level, AddSource})] *)
Record Handler : Type := NewJSONHandler
  { h_w : Sink
  ; h_Level : Level
  ; h_AddSource : bool }.

(** [slog.New(handler)]: a non-nil [*slog.Logger]. *)
Record Logger : Type := New { l_handler : Handler }.

(** The trailing arguments of a logging call. *)
Inductive Arg : Type :=
| Attr (key : string) (value : any)  (* slog.Any(key, value) *)
| Value (value : any)                (* a bare value *)
| Stringer (rendering : string).     (* a bare fmt.Stringer, by its String() *)

(** One call [logger.WithGroup(group).Info/Error(msg, args...)]; the group
    is empty for a call on the logger itself. *)
Record Record_ : Type := mkRecord
  { r_logger : Logger
  ; r_group : string
  ; r_level : Level
  ; r_msg : string
  ; r_args : list Arg }.

End slog.

(** What a run does to the outside, in program order. *)
Inductive event : Type :=
| HeaderSet (key value : string)   (* w.Header().Set(key, value) *)
| WriteHeader (statusCode : Z)     (* w.WriteHeader(statusCode) *)
| Write (p : string)               (* w.Write(p) *)
| Log (r : slog.Record_).

Inductive result (A : Type) : Type :=
| Ok (a : A)
| Panic (reason : string).
Arguments Ok {A} a.
Arguments Panic {A} reason.

(** A computation: given the calls made so far, its result, or the panic
    that ended it, and the calls it made. *)
Definition M (A : Type) : Type := list event -> result A * list event.

Definition ret {A : Type} (a : A) : M A := fun _ => (Ok a, []).

Definition bind {A B : Type} (m : M A) (f : A -> M B) : M B :=
  fun past =>
    match m past with
    | (Ok a, t) => let '(r, t') := f a (past ++ t)%list in (r, (t ++ t')%list)
    | (Panic reason, t) => (Panic reason, t)
    end.

Definition emit (e : event) : M unit := fun _ => (Ok tt, [e]).

Definition panic {A : Type} (reason : string) : M A :=
  fun _ => (Panic reason, []).

Notation "x <- c1 ;; c2" := (bind c1 (fun x => c2))
  (at level 61, c1 at next level, right associativity).
Notation "c1 ;; c2" := (bind c1 (fun _ => c2))
  (at level 61, right associativity).

(** The calls and the outcome of a computation run from the start. *)
Definition trace {A : Type} (m : M A) : list event := snd (m []).
Definition outcome {A : Type} (m : M A) : result A := fst (m []).

Definition nil_dereference : string :=
  "runtime error: invalid memory address or nil pointer dereference".

(** An [io.Writer], by its [Write] method (the byte count is dropped). *)
Definition Writer : Type := string -> M (option error).

(** [Write] every chunk in turn, stopping at the first error. *)
Fixpoint write_all (w : Writer) (chunks : list string) : M (option error) :=
  match chunks with
  | [] => ret None
  | p :: rest =>
      err <- w p ;;
      match err with
      | Some err => ret (Some err)
      | None => write_all w rest
      end
  end.

Definition newline : string := String "010"%char EmptyString.
Definition dquote : string := String "034"%char EmptyString.

(** The two marshalers of the standard library, which the repository only
    calls.
    - [json_marshal v]: the bytes [encoding/json] produces for [v], or its
      error (an unsupported type, a failing [MarshalJSON]).
    - [xml_marshal v]: the chunks that [encoding/xml], through its buffered
      writer, hands to the sink for [v], and the error of the marshalling, if
      any. *)
Class JsonLib : Type := json_marshal : any -> string + error.
Class XmlLib : Type := xml_marshal : any -> list string * option error.

Module json.

(** [json.Encoder], by the sink it holds. *)
Record Encoder : Type := NewEncoder { w : Writer }.

(** [func (enc *Encoder) Encode(v any) error]: marshal into a buffer, add a
    newline, write the buffer once.  The receiver is a pointer; the method
    reads a field of it first, which panics on nil. *)
Definition Encode `{JsonLib} (enc : option Encoder) (v : any) : M (option error) :=
  match enc with
  | None => panic nil_dereference
  | Some enc =>
      match json_marshal v with
      | inr err => ret (Some err)
      | inl b => w enc (b ++ newline)
      end
  end.

End json.

Module xml.

Record Encoder : Type := NewEncoder { w : Writer }.

(** [func (enc *Encoder) Encode(v any) error]: marshal through the buffered
    writer, then flush. *)
Definition Encode `{XmlLib} (enc : option Encoder) (v : any) : M (option error) :=
  match enc with
  | None => panic nil_dereference
  | Some enc =>
      let '(chunks, merr) := xml_marshal v in
      err <- write_all (w enc) chunks ;;
      match err with
      | Some err => ret (Some err)
      | None => ret merr
      end
  end.

End xml.

(* ================================================================== *)
(** ** Package encoder *)
(* ================================================================== *)

Module encoder.

(** [type Encoder interface { New(w io.Writer) Encoder; Encode(src any) error }]
    A value of the interface is an object: a representation, the receiver,
    and the two methods on it. *)
Record Encoder : Type := mkEncoder
  { impl : Type
  ; self : impl
  ; New : impl -> Writer -> impl
  ; Encode : impl -> any -> M (option error) }.

(** [type jsonEncoder struct { encoder *json.Encoder }] *)
Record jsonEncoder : Type := mkJsonEncoder { json_encoder : option json.Encoder }.

Definition jsonEncoder_New (d : jsonEncoder) (w : Writer) : jsonEncoder :=
  {| json_encoder := Some (json.NewEncoder w) |}.

Definition jsonEncoder_Encode `{JsonLib} (d : jsonEncoder) (src : any) : M (option error) :=
  json.Encode (json_encoder d) src.

(** [var JsonEncoder Encoder = &jsonEncoder{}] *)
Definition JsonEncoder `{JsonLib} : Encoder :=
  {| impl := jsonEncoder
   ; self := {| json_encoder := None |}
   ; New := jsonEncoder_New
   ; Encode := jsonEncoder_Encode |}.

(** [type xmlEncoder struct { encoder *xml.Encoder }] *)
Record xmlEncoder : Type := mkXmlEncoder { xml_encoder : option xml.Encoder }.

Definition xmlEncoder_New (e : xmlEncoder) (w : Writer) : xmlEncoder :=
  {| xml_encoder := Some (xml.NewEncoder w) |}.

Definition xmlEncoder_Encode `{XmlLib} (e : xmlEncoder) (src : any) : M (option error) :=
  xml.Encode (xml_encoder e) src.

(** [var XmlEncoder Encoder = &xmlEncoder{}] *)
Definition XmlEncoder `{XmlLib} : Encoder :=
  {| impl := xmlEncoder
   ; self := {| xml_encoder := None |}
   ; New := xmlEncoder_New
   ; Encode := xmlEncoder_Encode |}.

End encoder.

(* ================================================================== *)
(** ** Package slogx *)
(* ================================================================== *)

Module slogx.

(** [type logger struct { handler slog.Handler; w io.Writer; level slog.Level; source bool }] *)
Record logger : Type := mkLogger
  { handler : option slog.Handler
  ; w : option slog.Sink
  ; level : slog.Level
  ; source : bool }.

Definition Option : Type := logger -> logger.

Definition WithSource (source : bool) : Option :=
  fun s => {| handler := handler s; w := w s; level := level s; source := source |}.

Definition WithLevel (level : slog.Level) : Option :=
  fun s => {| handler := handler s; w := w s; level := level; source := source s |}.

Definition WithWriter (w : option slog.Sink) : Option :=
  fun s => {| handler := handler s; w := w; level := level s; source := source s |}.

Definition New (options : list Option) : slog.Logger :=
  let l := {| handler := None; w := None; level := 0; source := false |} in
  let l := fold_left (fun l opt => opt l) options l in
  let l_w := match w l with None => slog.Stdout | Some w => w end in
  let l_handler :=
    match handler l with
    | None => slog.NewJSONHandler l_w (level l) (source l)
    | Some h => h
    end in
  slog.New l_handler.

End slogx.

(* ================================================================== *)
(** ** What the code uses of net/http *)
(* ================================================================== *)

Module http.

Definition StatusOK : Z := 200.
Definition StatusInternalServerError : Z := 500.

(** [http.StatusText].  The code under study only asks for the text of 500;
    the table is cut down to a few of the library's entries, and the library
    returns the empty string for a code it does not know. *)
Definition StatusText (code : Z) : string :=
  if code =? 200 then "OK"
  else if code =? 201 then "Created"
  else if code =? 204 then "No Content"
  else if code =? 400 then "Bad Request"
  else if code =? 401 then "Unauthorized"
  else if code =? 403 then "Forbidden"
  else if code =? 404 then "Not Found"
  else if code =? 500 then "Internal Server Error"
  else if code =? 503 then "Service Unavailable"
  else "".

(** [context.Context], by identity. *)
Record Context : Type := mkContext { ctx_id : nat }.

(** [*http.Request] *)
Record Request : Type := mkRequest
  { Method : string
  ; URL : string
  ; Body : string
  ; ctx : Context }.

(** [WriteHeader] accepts a status from 100 to 999. *)
Definition valid (code : Z) : bool := (100 <=? code) && (code <=? 999).

(** A 1xx status other than 101 is informational: it is sent at once and
    the final status is still to come. *)
Definition informational (code : Z) : bool :=
  (100 <=? code) && (code <=? 199) && negb (code =? 101).

(** [bodyAllowedForStatus]: no body after a 1xx, 204 or 304 status. *)
Definition bodyAllowed (status : Z) : bool :=
  negb ((100 <=? status) && (status <=? 199))
  && negb (status =? 204) && negb (status =? 304).

(** [http.ErrBodyNotAllowed] *)
Definition ErrBodyNotAllowed : error :=
  Opaque "http: request method or response status code does not allow body".

(** The state of a response on the server: whether the final status has
    gone out, that status, the informational statuses sent before it, and the
    body accepted from the handler. *)
Record response : Type := mkResponse
  { wroteHeader : bool
  ; status : Z
  ; informed : list Z
  ; body : string }.

Definition fresh : response :=
  {| wroteHeader := false; status := 0; informed := []; body := "" |}.

(** [WriteHeader] on the state: the first call with a final status sends
    it; a later call is superfluous and changes nothing. *)
Definition commit (code : Z) (r : response) : response :=
  if wroteHeader r then r
  else if informational code then
    {| wroteHeader := false; status := status r;
       informed := (informed r ++ [code])%list; body := body r |}
  else {| wroteHeader := true; status := code; informed := informed r;
          body := body r |}.

Definition step (r : response) (e : event) : response :=
  match e with
  | HeaderSet _ _ => r
  | WriteHeader code => commit code r
  | Write p =>
      (* the first Write without a final status sends 200 *)
      let r := commit StatusOK r in
      if bodyAllowed (status r) then
        {| wroteHeader := wroteHeader r; status := status r;
           informed := informed r; body := body r ++ p |}
      else r
  | Log _ => r
  end.

(** The state of the response after the calls [t]. *)
Definition state (t : list event) : response := fold_left step t fresh.

(** The response once the handler has returned (a handler that wrote nothing
    answers 200). *)
Definition served (t : list event) : response := commit StatusOK (state t).

(** The methods of the handler's [http.ResponseWriter]; each call that
    returns is recorded. *)
Definition Header_Set (key value : string) : M unit := emit (HeaderSet key value).

(** [w.WriteHeader(statusCode)]: once the final status is out the call is
    superfluous and returns; before that, a status outside 100..999 makes it
    panic. *)
Definition w_WriteHeader (statusCode : Z) : M unit :=
  fun past =>
    if wroteHeader (state past) then (Ok tt, [WriteHeader statusCode])
    else if valid statusCode then (Ok tt, [WriteHeader statusCode])
    else (Panic "invalid WriteHeader code", []).

(** [w.Write(p)]: sends 200 if no final status is out, and returns
    [ErrBodyNotAllowed] for a non-empty [p] when the status admits no
    body. *)
Definition w_Write : Writer :=
  fun p past =>
    (Ok (if String.eqb p "" then None
         else if bodyAllowed (status (commit StatusOK (state past))) then None
         else Some ErrBodyNotAllowed),
     [Write p]).

(** [http.Error(w, error, code)]: set the plain-text headers, write the
    status, print the message and a newline. *)
Definition Error (error : string) (code : Z) : M unit :=
  Header_Set "Content-Type" "text/plain; charset=utf-8" ;;
  Header_Set "X-Content-Type-Options" "nosniff" ;;
  w_WriteHeader code ;;
  w_Write (error ++ newline) ;;
  ret tt.

(** The calls of [http.Error] when it returns. *)
Definition Error_calls (error : string) (code : Z) : list event :=
  [HeaderSet "Content-Type" "text/plain; charset=utf-8";
   HeaderSet "X-Content-Type-Options" "nosniff";
   WriteHeader code;
   Write (error ++ newline)].

(** The calls on the response writer among the events of a run. *)
Definition is_call (e : event) : bool :=
  match e with Log _ => false | _ => true end.
Definition calls (t : list event) : list event := filter is_call t.

(** The status codes passed to [WriteHeader], in order. *)
Fixpoint status_writes (t : list event) : list Z :=
  match t with
  | [] => []
  | WriteHeader code :: rest => code :: status_writes rest
  | _ :: rest => status_writes rest
  end.

(** The chunks passed to [Write], in order. *)
Fixpoint body_writes (t : list event) : list string :=
  match t with
  | [] => []
  | Write p :: rest => p :: body_writes rest
  | _ :: rest => body_writes rest
  end.

(** The log records among the events of a run. *)
Fixpoint logs (t : list event) : list slog.Record_ :=
  match t with
  | [] => []
  | Log r :: rest => r :: logs rest
  | _ :: rest => logs rest
  end.

End http.

(* ================================================================== *)
(** ** Package httpx *)
(* ================================================================== *)

Module httpx.

Import encoder.

(** [type Validatable interface { Validate() error }]; the receiver is a
    pointer, so the method may also change the request. *)
Class Validatable (Req : Type) : Type := Validate : Req -> Req * option error.

(** [type Bindable interface { Bind( *http.Request) error }] *)
Class Bindable (Req : Type) : Type := Bind : Req -> http.Request -> Req * option error.

(** [fmt.Stringer] *)
Class Stringer (T : Type) : Type := String_ : T -> string.

(** [type Request[Req any] interface { Bindable; Validatable; fmt.Stringer; *Req }],
    with the zero value that [var req Req] declares. *)
Class Request (Req : Type) : Type := mkRequestClass
  { Request_Bindable :: Bindable Req
  ; Request_Validatable :: Validatable Req
  ; Request_Stringer :: Stringer Req
  ; zero : Req }.

(** [type DefaultRequest struct{}] *)
Record DefaultRequest : Type := mkDefaultRequest { }.

#[export] Instance DefaultRequest_Bind : Bindable DefaultRequest :=
  fun req _ => (req, None).

#[export] Instance DefaultRequest_Validate : Validatable DefaultRequest :=
  fun req => (req, None).

(** [type UseCaseFunc[Req any, Resp any] func(context.Context, Req) (Resp, error)].
    A use case has no access to the response writer: besides its results it
    may only log. *)
Definition UseCaseFunc (Req Resp : Type) : Type :=
  http.Context -> Req -> list slog.Record_ * (Resp * option error).

Record handlerOptions : Type := mkHandlerOptions
  { successCode : Z
  ; encoder : option Encoder
  ; logger : option slog.Logger }.

(** [type Option func(h *handlerOptions)] *)
Definition Option : Type := handlerOptions -> handlerOptions.

Definition WithSuccessCode (code : Z) : Option :=
  fun h => {| successCode := code; encoder := encoder h; logger := logger h |}.

Definition WithEncoder (encoder : option Encoder) : Option :=
  fun h => {| successCode := successCode h; encoder := encoder; logger := logger h |}.

Definition WithLogger (logger : option slog.Logger) : Option :=
  fun h => {| successCode := successCode h; encoder := encoder h; logger := logger |}.

(** [var h handlerOptions] *)
Definition zero_handlerOptions : handlerOptions :=
  {| successCode := 0; encoder := None; logger := None |}.

Definition applyOptions `{JsonLib} (options : list Option) : handlerOptions :=
  let h := zero_handlerOptions in
  let h := fold_left (fun h option => option h) options h in
  let h := if successCode h <=? 0
           then WithSuccessCode http.StatusOK h else h in
  let h := match encoder h with
           | None => WithEncoder (Some JsonEncoder) h
           | Some _ => h
           end in
  let h := match logger h with
           | None => WithLogger (Some (slogx.New [])) h
           | Some _ => h
           end in
  h.

(** [h.logger.WithGroup(id).Error/Info(msg, args...)] *)
Definition log (h : handlerOptions) (id : string) (level : slog.Level)
    (msg : string) (args : list slog.Arg) : M unit :=
  match logger h with
  | None => panic nil_dereference
  | Some l => emit (Log (slog.mkRecord l id level msg args))
  end.

(** [h.encoder.New(w).Encode(src)] on the response writer [w]. *)
Definition encode (h : handlerOptions) (src : any) : M (option error) :=
  match encoder h with
  | None => panic nil_dereference
  | Some E => Encode E (New E (self E) http.w_Write) src
  end.

(** [if errx, ok := errorsx.As(err); ok && !errx.Internal()]: the classified
    error when the branch is taken. *)
Definition external (err : error) : M (option Errorx) :=
  let '(errx, ok) := errorsx.As (Some err) in
  if ok then
    match errx with
    | None => panic nil_dereference
    | Some errx => ret (if Internal errx then None else Some errx)
    end
  else ret None.

(** [http.Error(w, http.StatusText(http.StatusInternalServerError),
    http.StatusInternalServerError)] *)
Definition internalServerError : M unit :=
  http.Error (http.StatusText http.StatusInternalServerError)
             http.StatusInternalServerError.

(** A handler, given the identifier [uuid.New().String()] draws for the
    request. *)
Definition HandlerFunc : Type := string -> http.Request -> M unit.

(** What a use case logged goes to the trace. *)
Fixpoint emit_logs (l : list slog.Record_) : M unit :=
  match l with
  | [] => ret tt
  | r :: rest => emit (Log r) ;; emit_logs rest
  end.

Definition Handle {Req Resp : Type} `{JsonLib} `{Request Req} `{ToAny Resp}
    (useCase : UseCaseFunc Req Resp) (options : list Option) : HandlerFunc :=
  let h := applyOptions options in
  fun id r =>
    let req := zero in
    let '(req, err) := Bind req r in
    match err with
    | Some err =>
        ext <- external err ;;
        match ext with
        | Some errx =>
            log h id slog.LevelError "failed to bind request"
                [slog.Attr "err" (AnyError (Classified errx))] ;;
            http.w_WriteHeader (Code errx) ;;
            err <- encode h (AnyDefaultResponse {| Message := error_Error err |}) ;;
            match err with
            | Some err =>
                log h id slog.LevelError "failed to write error response"
                    [slog.Value (AnyError err)] ;;
                internalServerError
            | None => ret tt
            end
        | None =>
            http.w_WriteHeader http.StatusInternalServerError ;;
            err <- encode h (AnyDefaultResponse
                     {| Message := http.StatusText http.StatusInternalServerError |}) ;;
            match err with
            | Some err =>
                log h id slog.LevelError "failed to write error response"
                    [slog.Value (AnyError err)] ;;
                internalServerError
            | None => ret tt
            end
        end
    | None =>
        log h id slog.LevelInfo "request" [slog.Stringer (String_ req)] ;;
        let '(req, err) := Validate req in
        match err with
        | Some err =>
            ext <- external err ;;
            match ext with
            | Some errx =>
                log h id slog.LevelError "failed to validate request"
                    [slog.Attr "err" (AnyError (Classified errx))] ;;
                http.w_WriteHeader (Code errx) ;;
                err <- encode h (AnyString (Error errx)) ;;
                match err with
                | Some err =>
                    log h id slog.LevelError "failed to write error response"
                        [slog.Value (AnyError err)] ;;
                    internalServerError
                | None => ret tt
                end
            | None => internalServerError
            end
        | None =>
            let '(said, (response, err)) := useCase (http.ctx r) req in
            emit_logs said ;;
            match err with
            | Some err =>
                ext <- external err ;;
                match ext with
                | Some errx =>
                    http.w_WriteHeader (Code errx) ;;
                    err <- encode h (AnyString (Error errx)) ;;
                    match err with
                    | Some _ => internalServerError
                    | None => ret tt
                    end
                | None => internalServerError
                end
            | None =>
                log h id slog.LevelInfo "response" [slog.Value (to_any response)] ;;
                http.w_WriteHeader (successCode h) ;;
                err <- encode h (to_any response) ;;
                match err with
                | Some err =>
                    ext <- external err ;;
                    match ext with
                    | Some errx => http.Error (Error errx) (Code errx)
                    | None => internalServerError
                    end
                | None => ret tt
                end
            end
        end
    end.

End httpx.

(* ================================================================== *)
(** ** Package health *)
(* ================================================================== *)

Module health.

(** [type useCase struct { logger *slog.Logger }], built by [New] around a
    logger. *)
Record useCase : Type := New { logger : slog.Logger }.

(** [func (u *useCase) Health(ctx, request) (httpx.DefaultResponse, error)] *)
Definition Health (u : useCase) (ctx : http.Context)
    (request : httpx.DefaultRequest)
  : list slog.Record_ * (DefaultResponse * option error) :=
  ([slog.mkRecord (logger u) "" slog.LevelInfo "Health check" []],
   ({| Message := "OK" |}, None)).

End health.

(* ================================================================== *)
(** ** A model of encoding/json on the values above *)
(* ================================================================== *)

Module gojson.

Definition hex (n : nat) : string :=
  String (nth n ["0"; "1"; "2"; "3"; "4"; "5"; "6"; "7"; "8"; "9";
                 "a"; "b"; "c"; "d"; "e"; "f"]%char "0"%char) EmptyString.

Definition u00 (n : nat) : string :=
  "\u00" ++ hex (n / 16)%nat ++ hex (n mod 16)%nat.

(** One byte of a string inside a JSON string literal, with the HTML-safe
    escaping the encoder applies by default.  Bytes from 128 up are copied:
    the text is taken to be valid UTF-8 without U+2028 and U+2029. *)
Definition escape_byte (c : ascii) : string :=
  let n := nat_of_ascii c in
  if Nat.eqb n 34 then "\" ++ dquote
  else if Nat.eqb n 92 then "\\"
  else if Nat.eqb n 8 then "\b"
  else if Nat.eqb n 12 then "\f"
  else if Nat.eqb n 10 then "\n"
  else if Nat.eqb n 13 then "\r"
  else if Nat.eqb n 9 then "\t"
  else if Nat.ltb n 32 then u00 n
  else if Nat.eqb n 60 || Nat.eqb n 62 || Nat.eqb n 38 then u00 n
  else String c EmptyString.

Fixpoint escape (s : string) : string :=
  match s with
  | EmptyString => EmptyString
  | String c rest => escape_byte c ++ escape rest
  end.

Definition quote (s : string) : string := dquote ++ escape s ++ dquote.

(** [json.Marshal]: a string is a string literal; a [DefaultResponse] is an
    object with the one key of its field tag; an error value is a pointer to a
    struct without exported fields, hence the empty object; a channel is an
    unsupported type. *)
Definition marshal (v : any) : string + error :=
  match v with
  | AnyString s => inl (quote s)
  | AnyDefaultResponse r => inl ("{" ++ quote "message" ++ ":" ++ quote (Message r) ++ "}")
  | AnyError _ => inl "{}"
  | AnyChan _ => inr (Opaque "json: unsupported type: chan int")
  end.

#[export] Instance lib : JsonLib := marshal.

End gojson.

(* ================================================================== *)
(** ** Sample requests, use cases and an encoder of one's own *)
(* ================================================================== *)

Module sample.

Import httpx.

(** A request with one field, read from the body. *)
Record Form : Type := mkForm { x : string }.

Definition missing_field : Errorx := errorsx.New false 400 "missing field x".
Definition reserved : Errorx := errorsx.New false 403 "x is reserved".
Definition corrupt : Errorx := errorsx.New true 500 "validator state corrupt".
Definition not_found : Errorx := errorsx.New false 404 "no such x".

(** An error that joins an internal error and, after it, an external
    one. *)
Definition both : error :=
  Join "validator state corrupt; x is reserved"
    [Classified corrupt; Classified reserved].

#[export] Instance Form_Bind : Bindable Form :=
  fun req r =>
    if String.eqb (http.Body r) "" then
      (req, Some (Wrap "bind: missing field x" (Classified missing_field)))
    else if String.eqb (http.Body r) "!" then
      (req, Some (Opaque "read tcp 10.0.0.7:443: connection reset by peer"))
    else if String.eqb (http.Body r) "??" then (req, Some both)
    else ({| x := http.Body r |}, None).

#[export] Instance Form_Validate : Validatable Form :=
  fun req =>
    if String.eqb (x req) "admin" then (req, Some (Classified reserved))
    else if String.eqb (x req) "?" then (req, Some (Classified corrupt))
    else if String.eqb (x req) "admin?" then (req, Some both)
    else (req, None).

#[export] Instance Form_String : Stringer Form :=
  fun req => "Form{" ++ x req ++ "}".

#[export] Instance Form_Request : Request Form :=
  {| zero := {| x := "" |} |}.

(** A use case answering with a greeting. *)
Definition greet : UseCaseFunc Form DefaultResponse :=
  fun _ req =>
    if String.eqb (x req) "db" then
      ([], ({| Message := "" |},
            Some (Opaque "pq: password authentication failed for user admin")))
    else if String.eqb (x req) "gone" then
      ([], ({| Message := "" |}, Some (Classified not_found)))
    else ([], ({| Message := "hello " ++ x req |}, None)).

(** A use case whose response holds a channel, which no encoder of the
    standard library can serialise. *)
Definition subscribe : UseCaseFunc Form Chan :=
  fun _ _ => ([], ({| chan_id := 7 |}, None)).

(** An encoder for plain text: it writes a string as it is and refuses
    every other value. *)
Definition textEncoder : encoder.Encoder :=
  {| encoder.impl := option Writer
   ; encoder.self := None
   ; encoder.New := fun _ w => Some w
   ; encoder.Encode := fun e src =>
       match e with
       | None => panic nil_dereference
       | Some w =>
           match src with
           | AnyString s => w s
           | _ => ret (Some (Opaque "text: unsupported type"))
           end
       end |}.

(** An identifier as [uuid.New().String()] returns them. *)
Definition id : string := "1b4e28ba-2fa1-4d3b-a3f5-0e9c6d2a7c11".

Definition get (body : string) : http.Request :=
  {| http.Method := "GET"; http.URL := "/"; http.Body := body;
     http.ctx := {| http.ctx_id := 0 |} |}.

(** A request type that embeds [DefaultRequest] and adds the [String]
    method the [Request] constraint asks for. *)
#[export] Instance Ping_String : Stringer DefaultRequest := fun _ => "ping".

#[export] Instance Ping_Request : Request DefaultRequest :=
  {| zero := mkDefaultRequest |}.

(** The JSON texts of two responses. *)
Definition hello_bob : string :=
  "{" ++ dquote ++ "message" ++ dquote ++ ":" ++ dquote ++ "hello bob"
  ++ dquote ++ "}" ++ newline.

Definition message_OK : string :=
  "{" ++ dquote ++ "message" ++ dquote ++ ":" ++ dquote ++ "OK" ++ dquote ++ "}".

End sample.

(* ================================================================== *)
(** ** Vocabulary of the statements *)
(* ================================================================== *)

Module spec.

Import httpx.

(** The options the package provides. *)
Inductive provided : Option -> Prop :=
| provided_code code : provided (WithSuccessCode code)
| provided_encoder e : provided (WithEncoder e)
| provided_logger l : provided (WithLogger l).

(** Two provided options that set the same field. *)
Inductive same_field : Option -> Option -> Prop :=
| same_code c1 c2 : same_field (WithSuccessCode c1) (WithSuccessCode c2)
| same_encoder e1 e2 : same_field (WithEncoder e1) (WithEncoder e2)
| same_logger l1 l2 : same_field (WithLogger l1) (WithLogger l2).

(** An option that leaves the success code alone. *)
Definition keeps_code (o : Option) : Prop :=
  forall h, successCode (o h) = successCode h.

(** The encoder of a configuration only writes to its sink: bound to the
    response writer, [Encode] returns, whatever was called before, and what
    it did is a list of [Write]s. *)
Definition writes_only (h : handlerOptions) : Prop :=
  forall src past, exists err chunks,
    encode h src past = (Ok err, map Write chunks).

(** What the handler does with an error: [Some errx] when [errorsx.As] finds
    a classified error that is not internal. *)
Definition revealed (err : error) : option Errorx :=
  match errors_as err with
  | Some errx => if Internal errx then None else Some errx
  | None => None
  end.


(** Where a request stops after a successful bind with an error [err]: at
    validation, or in the use case. *)
Inductive fails_after_bind {Req Resp : Type} `{Request Req}
    (useCase : UseCaseFunc Req Resp) (r : http.Request) (err : error) : Prop :=
| fails_validate req req' :
    Bind zero r = (req, None) ->
    Validate req = (req', Some err) ->
    fails_after_bind useCase r err
| fails_useCase req req' said response :
    Bind zero r = (req, None) ->
    Validate req = (req', None) ->
    useCase (http.ctx r) req' = (said, (response, Some err)) ->
    fails_after_bind useCase r err.

(** Bind, validation and the use case all succeed, with [response]. *)
Definition succeeds {Req Resp : Type} `{Request Req}
    (useCase : UseCaseFunc Req Resp) (r : http.Request) (response : Resp) : Prop :=
  exists req req' said,
    Bind zero r = (req, None) /\
    Validate req = (req', None) /\
    useCase (http.ctx r) req' = (said, (response, None)).

Definition concat_strings (l : list string) : string :=
  fold_right String.append EmptyString l.

(** The loop of [applyOptions]. *)
Definition run_options (options : list Option) (h : handlerOptions) : handlerOptions :=
  fold_left (fun h option => option h) options h.

(** The defaults [applyOptions] fills in after the loop. *)
Definition defaults `{JsonLib} (h : handlerOptions) : handlerOptions :=
  let h := if successCode h <=? 0 then WithSuccessCode http.StatusOK h else h in
  let h := match encoder h with
           | None => WithEncoder (Some encoder.JsonEncoder) h
           | Some _ => h
           end in
  match logger h with
  | None => WithLogger (Some (slogx.New [])) h
  | Some _ => h
  end.

(** What follows the status and the encoding when [Encode] fails. *)
Definition after_encoding (failed : option error) : list event :=
  match failed with
  | None => []
  | Some _ => trace internalServerError
  end.


(** What the handler calls when the response cannot be encoded:
    [http.Error] with the message and code of an external classified error,
    or with the generic text and 500. *)
Definition encoding_failure_calls (e : error) : list event :=
  match revealed e with
  | Some errx => http.Error_calls (Error errx) (Code errx)
  | None =>
      http.Error_calls (http.StatusText http.StatusInternalServerError)
        http.StatusInternalServerError
  end.



(** A computation that returns, rather than panics. *)
Definition returns {A : Type} (m : M A) : Prop :=
  forall past, exists a t, m past = (Ok a, t).

(** A sink whose [Write] returns. *)
Definition sink_returns (w : Writer) : Prop := forall p, returns (w p).

End spec.

(* ================================================================== *)
(** ** Vocabulary for the options, the logs and the wrapped errors *)
(* ================================================================== *)

Module cover.

Import httpx.

(** The last element of a list that [pick] recognises, if any. *)
Fixpoint latest {T A : Type} (pick : T -> option A) (l : list T) : option A :=
  match l with
  | [] => None
  | x :: rest =>
      match latest pick rest with
      | Some a => Some a
      | None => pick x
      end
  end.

(** The options of package slogx, by name. *)
Inductive log_setting : Type :=
| SetSource (source : bool)
| SetLevel (level : slog.Level)
| SetWriter (w : option slog.Sink).

Definition log_option (s : log_setting) : slogx.Option :=
  match s with
  | SetSource source => slogx.WithSource source
  | SetLevel level => slogx.WithLevel level
  | SetWriter w => slogx.WithWriter w
  end.

Definition pick_source (s : log_setting) : option bool :=
  match s with SetSource source => Some source | _ => None end.

Definition pick_level (s : log_setting) : option slog.Level :=
  match s with SetLevel level => Some level | _ => None end.

Definition pick_writer (s : log_setting) : option (option slog.Sink) :=
  match s with SetWriter w => Some w | _ => None end.

(** The options of package httpx, by name. *)
Inductive setting : Type :=
| SetCode (code : Z)
| SetEncoder (e : option encoder.Encoder)
| SetLogger (l : option slog.Logger).

Definition option_of (s : setting) : Option :=
  match s with
  | SetCode code => WithSuccessCode code
  | SetEncoder e => WithEncoder e
  | SetLogger l => WithLogger l
  end.

Definition pick_code (s : setting) : option Z :=
  match s with SetCode code => Some code | _ => None end.

Definition pick_encoder (s : setting) : option (option encoder.Encoder) :=
  match s with SetEncoder e => Some e | _ => None end.

Definition pick_logger (s : setting) : option (option slog.Logger) :=
  match s with SetLogger l => Some l | _ => None end.

(** Two provided options that set different fields. *)
Inductive different_fields : Option -> Option -> Prop :=
| code_encoder c e : different_fields (WithSuccessCode c) (WithEncoder e)
| code_logger c l : different_fields (WithSuccessCode c) (WithLogger l)
| encoder_code e c : different_fields (WithEncoder e) (WithSuccessCode c)
| encoder_logger e l : different_fields (WithEncoder e) (WithLogger l)
| logger_code l c : different_fields (WithLogger l) (WithSuccessCode c)
| logger_encoder l e : different_fields (WithLogger l) (WithEncoder e).

(** An option that leaves the encoder alone. *)
Definition keeps_encoder (o : Option) : Prop :=
  forall h, encoder (o h) = encoder h.

(** An option that leaves the logger alone. *)
Definition keeps_logger (o : Option) : Prop :=
  forall h, logger (o h) = logger h.

(** [fmt.Errorf] with one [%w], once for each message, the first message
    outermost. *)
Definition wrap_all (msgs : list string) (err : error) : error :=
  fold_right Wrap err msgs.

(** The two records the handler logs at info level. *)
Definition request_record (l : slog.Logger) (id rendering : string) : slog.Record_ :=
  slog.mkRecord l id slog.LevelInfo "request" [slog.Stringer rendering].

Definition response_record (l : slog.Logger) (id : string) (response : any)
  : slog.Record_ :=
  slog.mkRecord l id slog.LevelInfo "response" [slog.Value response].

(** A record logged by the handler itself: on its logger, under the
    identifier of the request. *)
Definition own_record (l : slog.Logger) (id : string) (rec : slog.Record_) : Prop :=
  slog.r_logger rec = l /\ slog.r_group rec = id.

(** The request stops before the use case: bind fails, or validation does. *)
Definition stops_before_useCase {Req : Type} `{Request Req}
    (r : http.Request) : Prop :=
  (exists req err, Bind zero r = (req, Some err))
  \/ (exists req req' err,
        Bind zero r = (req, None) /\ Validate req = (req', Some err)).

End cover.

(* ================================================================== *)
(** ** A model of encoding/xml on the values above *)
(* ================================================================== *)

Module goxml.

(** One byte of character data, as [xml.EscapeText] writes it. *)
Definition escape_byte (c : ascii) : string :=
  let n := nat_of_ascii c in
  if Nat.eqb n 38 then "&amp;"
  else if Nat.eqb n 60 then "&lt;"
  else if Nat.eqb n 62 then "&gt;"
  else if Nat.eqb n 34 then "&#34;"
  else if Nat.eqb n 39 then "&#39;"
  else if Nat.eqb n 9 then "&#x9;"
  else if Nat.eqb n 10 then "&#xA;"
  else if Nat.eqb n 13 then "&#xD;"
  else String c EmptyString.

Fixpoint escape (s : string) : string :=
  match s with
  | EmptyString => EmptyString
  | String c rest => escape_byte c ++ escape rest
  end.

Definition element (name inner : string) : string :=
  "<" ++ name ++ ">" ++ inner ++ "</" ++ name ++ ">".

(** The name of the struct behind an error value. *)
Definition error_type (err : error) : string :=
  match err with
  | Opaque _ => "errorString"
  | Classified _ => "Errorx"
  | Wrap _ _ => "wrapError"
  | Join _ _ => "joinError"
  end.

(** What the encoder hands to the sink: an element named after the type, with
    the exported fields inside; a channel is an unsupported type.  The output
    is taken to fit the encoder's buffer, so that it reaches the sink in one
    chunk. *)
Definition marshal (v : any) : list string * option error :=
  match v with
  | AnyString s => ([element "string" (escape s)], None)
  | AnyDefaultResponse r =>
      ([element "DefaultResponse" (element "Message" (escape (Message r)))], None)
  | AnyError err => ([element (error_type err) ""], None)
  | AnyChan _ => ([], Some (Opaque "xml: unsupported type: chan int"))
  end.

#[export] Instance lib : XmlLib := marshal.

End goxml.

(* ================================================================== *)
(** * Properties *)
(* ================================================================== *)

(** ** errorsx.As *)


Lemma first_classified_app (l1 l2 : list error) :
  first_classified (l1 ++ l2) =
  match first_classified l1 with
  | Some e => Some e
  | None => first_classified l2
  end.
Proof.
  induction l1 as [|x l1 IH]; [reflexivity|].
  destruct x; simpl; auto.
Qed.

Lemma errors_as_chain (err : error) :
  errors_as err = first_classified (chain err).
Proof.
  induction err as [msg|e|msg inner IH|msg inners IH] using error_nested_ind;
    simpl; auto.
  induction IH as [|x rest Hx _ IHrest]; [reflexivity|].
  rewrite first_classified_app, <- Hx.
  destruct (errors_as x); [reflexivity|exact IHrest].
Qed.

Lemma first_classified_Some (l : list error) (e : Errorx) :
  first_classified l = Some e <->
  exists before after,
    l = (before ++ Classified e :: after)%list /\ unclassified before.
Proof.
  split.
  - induction l as [|x l IH]; [discriminate|].
    destruct x as [msg|e'|msg inner|msg inners]; simpl; intros Hf.
    2: { injection Hf as ->. exists [], l. split; [reflexivity|constructor]. }
    all: destruct (IH Hf) as (before & after & -> & Hb);
      eexists (_ :: before), after; split;
      [reflexivity|constructor; [reflexivity|exact Hb]].
  - intros (before & after & -> & Hb).
    induction Hb as [|x before Hx _ IH]; [reflexivity|].
    destruct x; simpl in *; try discriminate; exact IH.
Qed.

Lemma first_classified_None (l : list error) :
  first_classified l = None <-> unclassified l.
Proof.
  split.
  - induction l as [|x l IH]; [constructor|].
    destruct x; simpl; intros Hf; try discriminate;
      (constructor; [reflexivity|exact (IH Hf)]).
  - induction 1 as [|x l Hx _ IH]; [reflexivity|].
    destruct x; simpl in *; try discriminate; exact IH.
Qed.

Lemma As_eq (err : error) :
  As (Some err) =
  match first_classified (chain err) with
  | Some e => (Some e, true)
  | None => (None, false)
  end.
Proof.
  unfold As, errors_As. rewrite errors_as_chain.
  destruct (first_classified (chain err)); reflexivity.
Qed.

(** C7. [As] follows the wrap chain of an error: it returns [(e, true)]
    exactly when [e] is the first classified error of the chain, and
    [(nil, false)] exactly when no element of the chain is classified; it
    always returns one or the other, and [(nil, false)] on a nil error. *)
Theorem As_first_classified_of_chain (err : error) :
  (forall e, As (Some err) = (Some e, true) <->
     exists before after,
       chain err = (before ++ Classified e :: after)%list /\ unclassified before)
  /\ (As (Some err) = (None, false) <-> unclassified (chain err))
  /\ ((exists e, As (Some err) = (Some e, true)) \/ As (Some err) = (None, false))
  /\ As None = (None, false).
Proof.
  rewrite As_eq. split; [|split; [|split; [|reflexivity]]].
  - intros e. rewrite <- first_classified_Some.
    destruct (first_classified (chain err)); split; congruence.
  - rewrite <- first_classified_None.
    destruct (first_classified (chain err)); split; congruence.
  - destruct (first_classified (chain err)) as [e|]; [left; now exists e|now right].
Qed.

(** ** Handler options *)

Section Options.

Import httpx spec cover.
Context `{JsonLib}.

Lemma applyOptions_eq (options : list Option) :
  applyOptions options = defaults (run_options options zero_handlerOptions).
Proof. reflexivity. Qed.

Lemma run_options_app (l1 l2 : list Option) (h : handlerOptions) :
  run_options (l1 ++ l2) h = run_options l2 (run_options l1 h).
Proof. apply fold_left_app. Qed.

Lemma same_field_overrides (o o' : Option) (h : handlerOptions) :
  same_field o o' -> o' (o h) = o' h.
Proof. destruct 1; reflexivity. Qed.

Lemma provided_idempotent (o : Option) (h : handlerOptions) :
  provided o -> o (o h) = o h.
Proof. destruct 1; reflexivity. Qed.

Lemma same_field_provided (o o' : Option) :
  same_field o o' -> provided o /\ provided o'.
Proof. destruct 1; split; constructor. Qed.

(** A provided option in between does not bring back what a later setting of
    another field overrides. *)
Lemma provided_between (m o' : Option) (h1 h2 : handlerOptions) :
  provided m -> provided o' -> o' h1 = o' h2 -> o' (m h1) = o' (m h2).
Proof.
  destruct 1, 1; destruct h1, h2; cbv; intros Heq;
    injection Heq; intros; subst; reflexivity.
Qed.

Lemma run_between (mid : list Option) (o' : Option) (h1 h2 : handlerOptions) :
  Forall provided mid -> provided o' ->
  o' h1 = o' h2 ->
  o' (run_options mid h1) = o' (run_options mid h2).
Proof.
  intros Hmid Ho'. revert h1 h2.
  induction Hmid as [|m mid Hm _ IH]; intros h1 h2 Heq; [exact Heq|].
  simpl. apply IH. now apply provided_between.
Qed.

Lemma keeps_code_run (others : list Option) (h : handlerOptions) :
  Forall keeps_code others ->
  successCode (run_options others h) = successCode h.
Proof.
  intros Hk. revert h.
  induction Hk as [|o others Ho _ IH]; intros h; [reflexivity|].
  simpl. rewrite IH. apply Ho.
Qed.

Lemma keeps_encoder_run (others : list Option) (h : handlerOptions) :
  Forall keeps_encoder others ->
  encoder (run_options others h) = encoder h.
Proof.
  intros Hk. revert h.
  induction Hk as [|o others Ho _ IH]; intros h; [reflexivity|].
  simpl. rewrite IH. apply Ho.
Qed.

Lemma keeps_logger_run (others : list Option) (h : handlerOptions) :
  Forall keeps_logger others ->
  logger (run_options others h) = logger h.
Proof.
  intros Hk. revert h.
  induction Hk as [|o others Ho _ IH]; intros h; [reflexivity|].
  simpl. rewrite IH. apply Ho.
Qed.

Lemma defaults_successCode (h : handlerOptions) :
  successCode (defaults h) = if successCode h <=? 0 then 200 else successCode h.
Proof.
  unfold defaults.
  destruct (successCode h <=? 0) eqn:Hc; destruct h as [c [e|] [l|]];
    simpl in *; reflexivity.
Qed.

Lemma defaults_encoder (h : handlerOptions) :
  encoder (defaults h)
  = Some match encoder h with Some E => E | None => encoder.JsonEncoder end.
Proof.
  unfold defaults. destruct h as [c [E|] [l|]]; cbn;
    destruct (c <=? 0); reflexivity.
Qed.

Lemma defaults_logger (h : handlerOptions) :
  logger (defaults h)
  = Some match logger h with Some l => l | None => slogx.New [] end.
Proof.
  unfold defaults. destruct h as [c [E|] [l|]]; cbn;
    destruct (c <=? 0); reflexivity.
Qed.

(** C6. Options are applied in order and the last write wins: applying a
    provided option twice in a row configures what applying it once does; of
    two settings of the same field, with any provided options between them,
    only the later one counts; and the later one is what is configured, as
    long as no option after it sets the field again: its code when that is
    positive (200 otherwise), its encoder (the JSON encoder for nil), its
    logger (the default logger for nil). *)
Theorem applyOptions_last_write_wins
    (o o' : Option) (opts mid rest : list Option) :
  provided o -> same_field o o' -> Forall provided mid ->
  applyOptions (opts ++ [o; o]) = applyOptions (opts ++ [o])
  /\ applyOptions (opts ++ o :: mid ++ o' :: rest)
     = applyOptions (opts ++ mid ++ o' :: rest)
  /\ (forall code, o' = WithSuccessCode code -> Forall keeps_code rest ->
        successCode (applyOptions (opts ++ o :: mid ++ o' :: rest))
        = if code <=? 0 then http.StatusOK else code)
  /\ (forall e, o' = WithEncoder e -> Forall keeps_encoder rest ->
        encoder (applyOptions (opts ++ o :: mid ++ o' :: rest))
        = Some match e with Some E => E | None => encoder.JsonEncoder end)
  /\ (forall l, o' = WithLogger l -> Forall keeps_logger rest ->
        logger (applyOptions (opts ++ o :: mid ++ o' :: rest))
        = Some match l with Some l => l | None => slogx.New [] end).
Proof.
  intros Ho Hsame Hmid. rewrite !applyOptions_eq.
  split; [|split; [|split; [|split]]].
  - f_equal. rewrite !run_options_app. simpl. now apply provided_idempotent.
  - f_equal. rewrite !run_options_app. simpl. rewrite !run_options_app. simpl.
    f_equal. apply run_between; auto.
    + apply (same_field_provided _ _ Hsame).
    + now apply same_field_overrides.
  - intros code -> Hrest. rewrite defaults_successCode.
    rewrite run_options_app. simpl. rewrite run_options_app. simpl.
    rewrite keeps_code_run by assumption. reflexivity.
  - intros e -> Hrest. rewrite defaults_encoder.
    rewrite run_options_app. simpl. rewrite run_options_app. simpl.
    rewrite keeps_encoder_run by assumption. reflexivity.
  - intros l -> Hrest. rewrite defaults_logger.
    rewrite run_options_app. simpl. rewrite run_options_app. simpl.
    rewrite keeps_logger_run by assumption. reflexivity.
Qed.

Lemma applyOptions_successCode (options : list Option) :
  successCode (applyOptions options) =
  let code := successCode (run_options options zero_handlerOptions) in
  if code <=? 0 then 200 else code.
Proof. rewrite applyOptions_eq. apply defaults_successCode. Qed.

(** C9. The success code in force is always positive.  Setting a code that
    is zero or negative, with no later setting of the code, gives 200, and so
    does a list of options that never sets the code. *)
Theorem applyOptions_successCode_positive
    (options others : list Option) (code : Z) :
  code <= 0 -> Forall keeps_code others ->
  0 < successCode (applyOptions options)
  /\ successCode (applyOptions (options ++ WithSuccessCode code :: others))
     = http.StatusOK
  /\ successCode (applyOptions others) = http.StatusOK.
Proof.
  intros Hcode Hothers. rewrite !applyOptions_successCode. cbv zeta.
  repeat split.
  - destruct (Z.leb_spec (successCode (run_options options zero_handlerOptions)) 0);
      lia.
  - rewrite run_options_app. simpl. rewrite keeps_code_run by assumption.
    simpl. destruct (Z.leb_spec code 0); [reflexivity|lia].
  - rewrite keeps_code_run by assumption. reflexivity.
Qed.

Lemma keeps_code_WithEncoder e : keeps_code (WithEncoder e).
Proof. intros h. reflexivity. Qed.

Lemma keeps_code_WithLogger l : keeps_code (WithLogger l).
Proof. intros h. reflexivity. Qed.

(** A configuration always has an encoder and a logger. *)
Lemma applyOptions_total (options : list Option) :
  exists E l,
    encoder (applyOptions options) = Some E /\
    logger (applyOptions options) = Some l.
Proof.
  rewrite applyOptions_eq. unfold defaults.
  destruct (run_options options zero_handlerOptions) as [c [e|] [l|]];
    cbn; destruct (c <=? 0); cbn; eauto.
Qed.

End Options.


(** ** The response writer *)

Section Writer.

Lemma calls_app (t1 t2 : list event) :
  http.calls (t1 ++ t2) = (http.calls t1 ++ http.calls t2)%list.
Proof. apply filter_app. Qed.

Lemma calls_Writes (chunks : list string) :
  http.calls (map Write chunks) = map Write chunks.
Proof. induction chunks as [|p rest IH]; simpl; [|rewrite IH]; reflexivity. Qed.

Lemma calls_Logs (said : list slog.Record_) :
  http.calls (map Log said) = [].
Proof. induction said as [|x rest IH]; simpl; auto. Qed.

Lemma status_writes_app (t1 t2 : list event) :
  http.status_writes (t1 ++ t2)
  = (http.status_writes t1 ++ http.status_writes t2)%list.
Proof.
  induction t1 as [|e t1 IH]; [reflexivity|].
  destruct e; simpl; rewrite IH; reflexivity.
Qed.

Lemma status_writes_Writes (chunks : list string) :
  http.status_writes (map Write chunks) = [].
Proof. induction chunks as [|p rest IH]; simpl; auto. Qed.

Lemma status_writes_Logs (said : list slog.Record_) :
  http.status_writes (map Log said) = [].
Proof. induction said as [|x rest IH]; simpl; auto. Qed.

Lemma status_writes_calls (t : list event) :
  http.status_writes (http.calls t) = http.status_writes t.
Proof.
  induction t as [|e t IH]; [reflexivity|].
  destruct e; simpl; rewrite ?IH; reflexivity.
Qed.

Lemma body_writes_app (t1 t2 : list event) :
  http.body_writes (t1 ++ t2)
  = (http.body_writes t1 ++ http.body_writes t2)%list.
Proof.
  induction t1 as [|e t1 IH]; [reflexivity|].
  destruct e; simpl; rewrite IH; reflexivity.
Qed.

Lemma body_writes_Writes (chunks : list string) :
  http.body_writes (map Write chunks) = chunks.
Proof. induction chunks as [|p rest IH]; simpl; [|rewrite IH]; reflexivity. Qed.

Lemma body_writes_Logs (said : list slog.Record_) :
  http.body_writes (map Log said) = [].
Proof. induction said as [|x rest IH]; simpl; auto. Qed.

Lemma logs_app (t1 t2 : list event) :
  http.logs (t1 ++ t2) = (http.logs t1 ++ http.logs t2)%list.
Proof.
  induction t1 as [|e t1 IH]; [reflexivity|].
  destruct e; simpl; rewrite IH; reflexivity.
Qed.

Lemma logs_Writes (chunks : list string) :
  http.logs (map Write chunks) = [].
Proof. induction chunks as [|p rest IH]; simpl; auto. Qed.

Lemma logs_Logs (said : list slog.Record_) : http.logs (map Log said) = said.
Proof. induction said as [|x rest IH]; simpl; [|rewrite IH]; reflexivity. Qed.

Lemma logs_Error_calls (msg : string) (code : Z) :
  http.logs (http.Error_calls msg code) = [].
Proof. reflexivity. Qed.

(** Logging does not change the response. *)
Lemma fold_calls (t : list event) (r0 : http.response) :
  fold_left http.step (http.calls t) r0 = fold_left http.step t r0.
Proof.
  revert r0. induction t as [|e t IH]; intros r0; [reflexivity|].
  destruct e; simpl; rewrite IH; reflexivity.
Qed.

Lemma state_calls (t : list event) : http.state (http.calls t) = http.state t.
Proof. apply fold_calls. Qed.

Lemma served_calls (t : list event) :
  http.served (http.calls t) = http.served t.
Proof. unfold http.served. now rewrite state_calls. Qed.

Lemma status_served_calls (t : list event) :
  http.status (http.served (http.calls t)) = http.status (http.served t).
Proof. now rewrite served_calls. Qed.

Lemma committed_stays (t : list event) (r : http.response) :
  http.wroteHeader r = true ->
  http.wroteHeader (fold_left http.step t r) = true /\
  http.status (fold_left http.step t r) = http.status r.
Proof.
  revert r. induction t as [|e t IH]; intros r Hr; [auto|].
  simpl. destruct e as [k v|code|p|rec]; simpl.
  - apply IH, Hr.
  - unfold http.commit. rewrite Hr. apply IH, Hr.
  - unfold http.commit. rewrite Hr.
    destruct (http.bodyAllowed (http.status r)); [|apply IH, Hr].
    match goal with |- context [fold_left _ _ ?r'] =>
      destruct (IH r' Hr) as [Hw Hs] end. auto.
  - apply IH, Hr.
Qed.

Lemma commit_fresh_final (code : Z) :
  http.informational code = false ->
  http.commit code http.fresh
  = {| http.wroteHeader := true; http.status := code;
       http.informed := []; http.body := "" |}.
Proof. intros Hfin. unfold http.commit. simpl. now rewrite Hfin. Qed.

Lemma state_cons_status (code : Z) (t : list event) :
  http.state (WriteHeader code :: t)
  = fold_left http.step t (http.commit code http.fresh).
Proof. reflexivity. Qed.

(** Once a final status is among the calls it has gone out and stands. *)
Lemma state_after_status (past rest : list event) (code : Z) :
  http.calls past = WriteHeader code :: rest ->
  http.informational code = false ->
  http.wroteHeader (http.state past) = true
  /\ http.status (http.state past) = code.
Proof.
  intros Hc Hfin. rewrite <- state_calls, Hc, state_cons_status.
  rewrite (commit_fresh_final code Hfin).
  apply (committed_stays rest). reflexivity.
Qed.

(** Under the server's contract the first final status written stands,
    whatever is written after it. *)
Lemma served_status_first (code : Z) (t : list event) :
  http.informational code = false ->
  http.status (http.served (WriteHeader code :: t)) = code.
Proof.
  intros Hfin. unfold http.served. rewrite state_cons_status.
  rewrite (commit_fresh_final code Hfin).
  match goal with |- context [fold_left _ _ ?r'] =>
    destruct (committed_stays t r' eq_refl) as [Hw Hs] end.
  unfold http.commit. rewrite Hw. exact Hs.
Qed.

Lemma append_assoc (a b c : string) : ((a ++ b) ++ c = a ++ (b ++ c))%string.
Proof. induction a as [|x a IH]; simpl; [|rewrite IH]; reflexivity. Qed.

Lemma append_empty_r (a : string) : (a ++ "" = a)%string.
Proof. induction a as [|x a IH]; simpl; [|rewrite IH]; reflexivity. Qed.

Lemma body_kept (t : list event) (r : http.response) :
  http.wroteHeader r = true ->
  http.bodyAllowed (http.status r) = true ->
  http.body (fold_left http.step t r)
  = (http.body r ++ spec.concat_strings (http.body_writes t))%string.
Proof.
  revert r. induction t as [|e t IH]; intros r Hw Ha; simpl.
  - now rewrite append_empty_r.
  - destruct e as [k v|code|p|rec]; simpl.
    + now apply IH.
    + unfold http.commit. rewrite Hw. now apply IH.
    + unfold http.commit. rewrite Hw, Ha. rewrite IH by assumption.
      simpl. now rewrite append_assoc.
    + now apply IH.
Qed.

Lemma bodyAllowed_final (code : Z) :
  http.bodyAllowed code = true -> http.informational code = false.
Proof.
  unfold http.bodyAllowed, http.informational.
  destruct ((100 <=? code) && (code <=? 199)); [discriminate|reflexivity].
Qed.

(** After a final status that admits a body, the body of the response is
    what was written, in order. *)
Lemma served_body_after (code : Z) (t : list event) :
  http.bodyAllowed code = true ->
  http.body (http.served (WriteHeader code :: t))
  = spec.concat_strings (http.body_writes t).
Proof.
  intros Ha. pose proof (bodyAllowed_final code Ha) as Hfin.
  unfold http.served. rewrite state_cons_status.
  rewrite (commit_fresh_final code Hfin).
  match goal with |- context [fold_left _ _ ?r'] =>
    destruct (committed_stays t r' eq_refl) as [Hw Hs];
    pose proof (body_kept t r' eq_refl Ha) as Hb end.
  unfold http.commit. rewrite Hw. exact Hb.
Qed.

(** [WriteHeader] with a status it accepts returns, whatever came before. *)
Lemma WriteHeader_valid (code : Z) (past : list event) :
  http.valid code = true ->
  http.w_WriteHeader code past = (Ok tt, [WriteHeader code]).
Proof.
  intros Hv. unfold http.w_WriteHeader. rewrite Hv.
  destruct (http.wroteHeader (http.state past)); reflexivity.
Qed.

(** [WriteHeader] after the final status returns, whatever the code. *)
Lemma WriteHeader_superfluous (code : Z) (past : list event) :
  http.wroteHeader (http.state past) = true ->
  http.w_WriteHeader code past = (Ok tt, [WriteHeader code]).
Proof. intros Hw. unfold http.w_WriteHeader. now rewrite Hw. Qed.

Lemma WriteHeader_cases (code : Z) (past : list event) :
  http.w_WriteHeader code past = (Ok tt, [WriteHeader code])
  \/ exists reason, http.w_WriteHeader code past = (Panic reason, []).
Proof.
  unfold http.w_WriteHeader.
  destruct (http.wroteHeader (http.state past)); [now left|].
  destruct (http.valid code); [now left|right; eauto].
Qed.

Lemma Error_valid (msg : string) (code : Z) (past : list event) :
  http.valid code = true ->
  http.Error msg code past = (Ok tt, http.Error_calls msg code).
Proof.
  intros Hv. unfold http.Error, http.Header_Set.
  cbv beta delta [bind emit ret]. cbn -[http.w_WriteHeader http.state].
  rewrite WriteHeader_valid by assumption. reflexivity.
Qed.

Lemma Error_superfluous (msg : string) (code : Z) (past : list event) :
  http.wroteHeader (http.state past) = true ->
  http.Error msg code past = (Ok tt, http.Error_calls msg code).
Proof.
  intros Hw. unfold http.Error, http.Header_Set.
  cbv beta delta [bind emit ret]. cbn -[http.w_WriteHeader http.state].
  rewrite WriteHeader_superfluous; [reflexivity|].
  unfold http.state in *. rewrite !fold_left_app. simpl. exact Hw.
Qed.

Lemma Error_cases (msg : string) (code : Z) (past : list event) :
  http.Error msg code past = (Ok tt, http.Error_calls msg code)
  \/ exists reason,
       http.Error msg code past
       = (Panic reason,
          [HeaderSet "Content-Type" "text/plain; charset=utf-8";
           HeaderSet "X-Content-Type-Options" "nosniff"]).
Proof.
  unfold http.Error, http.Header_Set.
  cbv beta delta [bind emit ret]. cbn -[http.w_WriteHeader http.state].
  match goal with |- context [http.w_WriteHeader ?c ?p] =>
    destruct (WriteHeader_cases c p) as [E|[reason E]]; rewrite E end.
  - now left.
  - right. now exists reason.
Qed.

Lemma internalServerError_run (past : list event) :
  httpx.internalServerError past
  = (Ok tt, http.Error_calls (http.StatusText 500) 500).
Proof. unfold httpx.internalServerError. now apply Error_valid. Qed.

(** A write on the response writer after a final status that admits a
    body is accepted. *)
Lemma Write_accepted (p : string) (past : list event) :
  http.wroteHeader (http.state past) = true ->
  http.bodyAllowed (http.status (http.state past)) = true ->
  http.w_Write p past = (Ok None, [Write p])
  /\ http.wroteHeader (http.state (past ++ [Write p])) = true
  /\ http.status (http.state (past ++ [Write p])) = http.status (http.state past).
Proof.
  intros Hw Ha. unfold http.w_Write, http.commit. rewrite Hw, Ha.
  split; [destruct (String.eqb p ""); reflexivity|].
  unfold http.state. rewrite fold_left_app. simpl.
  unfold http.commit. fold (http.state past). rewrite Hw, Ha. simpl. auto.
Qed.

Lemma write_all_accepted (chunks : list string) (past : list event) :
  http.wroteHeader (http.state past) = true ->
  http.bodyAllowed (http.status (http.state past)) = true ->
  write_all http.w_Write chunks past = (Ok None, map Write chunks).
Proof.
  revert past. induction chunks as [|p rest IH]; intros past Hw Ha;
    [reflexivity|].
  simpl. cbv beta delta [bind ret].
  destruct (Write_accepted p past Hw Ha) as (-> & Hw' & Hs').
  rewrite IH; [reflexivity|exact Hw'|now rewrite Hs'].
Qed.

(** Whatever came before, writing chunks to the response writer makes
    [Write] calls only, and stops at the first one refused. *)
Lemma write_all_writes (chunks : list string) (past : list event) :
  exists err done, write_all http.w_Write chunks past = (Ok err, map Write done).
Proof.
  revert past. induction chunks as [|p rest IH]; intros past.
  - now exists None, [].
  - simpl. cbv beta delta [bind ret]. unfold http.w_Write at 1.
    match goal with |- context [if ?c then None else ?e] =>
      destruct c; [|destruct e as [err|]] end.
    + destruct (IH (past ++ [Write p])%list) as (err & done & ->).
      now exists err, (p :: done).
    + now exists (Some err), [p].
    + destruct (IH (past ++ [Write p])%list) as (err & done & ->).
      now exists err, (p :: done).
Qed.

End Writer.

(** Rewriting recorded traces into their calls, status writes, chunks and
    log records. *)
Create Rewrite HintDb recorded.
Create Rewrite HintDb written.
Create Rewrite HintDb logged.

#[export] Hint Rewrite calls_app calls_Writes calls_Logs
  status_writes_app status_writes_Writes status_writes_Logs
  @app_nil_r @length_app : recorded.

#[export] Hint Rewrite body_writes_app body_writes_Logs body_writes_Writes
  @app_nil_r : written.

#[export] Hint Rewrite logs_app logs_Logs logs_Writes logs_Error_calls
  @app_nil_r : logged.

(** ** Encoders *)

Section Encoders.

Import encoder spec.
Context `{JsonLib} `{XmlLib}.

Lemma write_all_returns (w : Writer) (chunks : list string) :
  sink_returns w -> returns (write_all w chunks).
Proof.
  intros Hw. induction chunks as [|p rest IH]; intros past; simpl.
  - now exists None, [].
  - cbv beta delta [bind ret].
    destruct (Hw p past) as ([err|] & t & ->).
    + now exists (Some err), (t ++ [])%list.
    + destruct (IH (past ++ t)%list) as (a & t' & ->).
      now exists a, (t ++ t')%list.
Qed.

(** C10. [Encode] on the package-level [JsonEncoder] or [XmlEncoder] panics
    on the nil encoder inside; on a receiver that [New] produced it returns
    (whenever the sink's [Write] does); and a receiver on which it returns
    is one that [New] produced. *)
Theorem Encode_safe_only_after_New :
  (forall src, Encode JsonEncoder (self JsonEncoder) src = panic nil_dereference)
  /\ (forall src, Encode XmlEncoder (self XmlEncoder) src = panic nil_dereference)
  /\ (forall d w src, sink_returns w ->
        returns (Encode JsonEncoder (New JsonEncoder d w) src))
  /\ (forall e w src, sink_returns w ->
        returns (Encode XmlEncoder (New XmlEncoder e w) src))
  /\ (forall d src, returns (jsonEncoder_Encode d src) ->
        exists w, d = jsonEncoder_New d w)
  /\ (forall e src, returns (xmlEncoder_Encode e src) ->
        exists w, e = xmlEncoder_New e w).
Proof.
  repeat apply conj; try reflexivity.
  - intros d w src Hw past. cbn. unfold jsonEncoder_Encode. cbn.
    destruct (json_marshal src) as [b|err]; [apply Hw|].
    now exists (Some err), [].
  - intros e w src Hw past. cbn. unfold xmlEncoder_Encode. cbn.
    destruct (xml_marshal src) as [chunks merr].
    cbv beta delta [bind ret].
    destruct (write_all_returns w chunks Hw past) as ([err|] & t & ->).
    + now exists (Some err), (t ++ [])%list.
    + now exists merr, (t ++ [])%list.
  - intros [[[w]|]] src Hr; [now exists w|].
    destruct (Hr []) as (a & t & Ha). discriminate.
  - intros [[[w]|]] src Hr; [now exists w|].
    destruct (Hr []) as (a & t & Ha). discriminate.
Qed.

(** The JSON encoder on the response writer: one [Write] of the marshalled
    bytes and a newline, or the marshalling error and no call. *)
Lemma JsonEncoder_encode (h : httpx.handlerOptions) (src : any)
    (past : list event) :
  httpx.encoder h = Some JsonEncoder ->
  httpx.encode h src past
  = match json_marshal src with
    | inl b => http.w_Write (b ++ newline) past
    | inr err => (Ok (Some err), [])
    end.
Proof.
  intros HE. unfold httpx.encode. rewrite HE. cbn.
  unfold jsonEncoder_Encode. cbn.
  destruct (json_marshal src) as [b|err]; reflexivity.
Qed.

Lemma JsonEncoder_writes_only (h : httpx.handlerOptions) :
  httpx.encoder h = Some JsonEncoder -> writes_only h.
Proof.
  intros HE src past. rewrite (JsonEncoder_encode h src past HE).
  destruct (json_marshal src) as [b|err].
  - unfold http.w_Write. eexists; exists [(b ++ newline)%string]. reflexivity.
  - exists (Some err), []. reflexivity.
Qed.

(** After a final status that admits a body, the JSON encoder's write is
    accepted. *)
Lemma JsonEncoder_accepted (h : httpx.handlerOptions) (src : any)
    (b : string) (past : list event) :
  httpx.encoder h = Some JsonEncoder ->
  json_marshal src = inl b ->
  http.wroteHeader (http.state past) = true ->
  http.bodyAllowed (http.status (http.state past)) = true ->
  httpx.encode h src past = (Ok None, [Write (b ++ newline)]).
Proof.
  intros HE Hb Hw Ha. rewrite (JsonEncoder_encode h src past HE), Hb.
  now destruct (Write_accepted (b ++ newline) past Hw Ha) as [-> _].
Qed.

Lemma XmlEncoder_encode (h : httpx.handlerOptions) (src : any)
    (past : list event) :
  httpx.encoder h = Some XmlEncoder ->
  httpx.encode h src past
  = let '(chunks, merr) := xml_marshal src in
    match write_all http.w_Write chunks past with
    | (Ok (Some err), t) => (Ok (Some err), (t ++ [])%list)
    | (Ok None, t) => (Ok merr, (t ++ [])%list)
    | (Panic reason, t) => (Panic reason, t)
    end.
Proof.
  intros HE. unfold httpx.encode. rewrite HE. cbn.
  unfold xmlEncoder_Encode. cbn.
  destruct (xml_marshal src) as [chunks merr].
  cbv beta delta [bind ret].
  destruct (write_all http.w_Write chunks past) as [[[err|]|reason] t];
    reflexivity.
Qed.

Lemma XmlEncoder_writes_only (h : httpx.handlerOptions) :
  httpx.encoder h = Some XmlEncoder -> writes_only h.
Proof.
  intros HE src past. rewrite (XmlEncoder_encode h src past HE).
  destruct (xml_marshal src) as [chunks merr].
  destruct (write_all_writes chunks past) as ([err|] & done & ->);
    rewrite app_nil_r; eauto.
Qed.

(** After a final status that admits a body, every chunk of the XML
    encoder is accepted. *)
Lemma XmlEncoder_accepted (h : httpx.handlerOptions) (src : any)
    (chunks : list string) (merr : option error) (past : list event) :
  httpx.encoder h = Some XmlEncoder ->
  xml_marshal src = (chunks, merr) ->
  http.wroteHeader (http.state past) = true ->
  http.bodyAllowed (http.status (http.state past)) = true ->
  httpx.encode h src past = (Ok merr, map Write chunks).
Proof.
  intros HE Hx Hw Ha. rewrite (XmlEncoder_encode h src past HE), Hx.
  rewrite (write_all_accepted chunks past Hw Ha). now rewrite app_nil_r.
Qed.

(** The encoders called right after a status that admits a body. *)
Lemma JsonEncoder_after_status (h : httpx.handlerOptions) (src : any)
    (b : string) (code : Z) (past : list event) :
  httpx.encoder h = Some JsonEncoder ->
  json_marshal src = inl b ->
  http.bodyAllowed code = true ->
  http.calls past = [WriteHeader code] ->
  httpx.encode h src past = (Ok None, [Write (b ++ newline)]).
Proof.
  intros HE Hb Ha Hc.
  destruct (state_after_status past [] code Hc (bodyAllowed_final code Ha))
    as [Hw Hs].
  apply JsonEncoder_accepted; try assumption. now rewrite Hs.
Qed.

Lemma XmlEncoder_after_status (h : httpx.handlerOptions) (src : any)
    (chunks : list string) (merr : option error) (code : Z)
    (past : list event) :
  httpx.encoder h = Some XmlEncoder ->
  xml_marshal src = (chunks, merr) ->
  http.bodyAllowed code = true ->
  http.calls past = [WriteHeader code] ->
  httpx.encode h src past = (Ok merr, map Write chunks).
Proof.
  intros HE Hx Ha Hc.
  destruct (state_after_status past [] code Hc (bodyAllowed_final code Ha))
    as [Hw Hs].
  apply XmlEncoder_accepted; try assumption. now rewrite Hs.
Qed.

End Encoders.

(** ** The handler's steps *)

Section Steps.

Lemma emit_logs_run (said : list slog.Record_) (past : list event) :
  httpx.emit_logs said past = (Ok tt, map Log said).
Proof.
  revert past. induction said as [|x rest IH]; intros past; [reflexivity|].
  change (httpx.emit_logs (x :: rest) past)
    with ((emit (Log x) ;; httpx.emit_logs rest) past).
  cbv beta iota delta [bind emit]. rewrite IH. reflexivity.
Qed.

Lemma log_run (h : httpx.handlerOptions) (l : slog.Logger)
    (id : string) (level : slog.Level) (msg : string) (args : list slog.Arg)
    (past : list event) :
  httpx.logger h = Some l ->
  httpx.log h id level msg args past
  = (Ok tt, [Log (slog.mkRecord l id level msg args)]).
Proof. intros Hl. unfold httpx.log. now rewrite Hl. Qed.

Lemma external_eq (err : error) :
  httpx.external err = ret (spec.revealed err).
Proof.
  unfold httpx.external, spec.revealed, As, errors_As.
  destruct (errors_as err) as [errx|]; reflexivity.
Qed.


Lemma trace_internalServerError :
  trace httpx.internalServerError
  = http.Error_calls (http.StatusText 500) 500.
Proof. reflexivity. Qed.

End Steps.

(** ** Proof steps for the handler *)

(** Evaluate the handler as far as the encoder; a status is written once
    it is known to be one [WriteHeader] accepts. *)
Ltac handler_steps Hl :=
  repeat first
    [ rewrite (log_run _ _ _ _ _ _ _ Hl)
    | rewrite external_eq
    | rewrite emit_logs_run
    | rewrite internalServerError_run
    | rewrite WriteHeader_valid by (assumption || reflexivity)
    | rewrite Error_valid by (assumption || reflexivity)
    | progress cbv beta delta [bind ret emit]
    | progress cbn -[httpx.encode httpx.log httpx.external httpx.emit_logs
                     httpx.applyOptions http.calls http.status_writes
                     http.body_writes http.served http.logs
                     http.w_WriteHeader http.Error httpx.internalServerError
                     http.state http.valid http.informational
                     http.bodyAllowed http.Error_calls] ].

(** Normalise the recorded calls of an evaluated run. *)
Ltac calls_steps :=
  repeat first
    [ progress autorewrite with recorded
    | progress cbn -[http.served http.state http.valid http.informational
                     http.bodyAllowed] ].

(** What the client receives after a first status and more calls. *)
Ltac status_steps := rewrite <- status_served_calls; calls_steps.

Ltac served_steps := rewrite <- served_calls; calls_steps.

Ltac body_steps :=
  repeat first
    [ progress autorewrite with written
    | progress cbn [http.body_writes app] ].

Ltac logs_steps :=
  repeat first
    [ progress autorewrite with logged
    | progress cbn [http.logs app] ].


(** A status write of which nothing is known: it returns, or it panics and
    the run ends there. *)
Ltac status_cases :=
  match goal with
  | |- context [http.w_WriteHeader ?code ?past] =>
      let E := fresh "E" in
      let reason := fresh "reason" in
      destruct (WriteHeader_cases code past) as [E|[reason E]]; rewrite E
  | |- context [http.Error ?msg ?code ?past] =>
      let E := fresh "E" in
      let reason := fresh "reason" in
      destruct (Error_cases msg code past) as [E|[reason E]]; rewrite E
  end.



(** ** The handler *)

Section Handler.

Import httpx spec.
Context `{JsonLib} {Req Resp : Type} `{Request Req} `{ToAny Resp}.
Variable useCase : UseCaseFunc Req Resp.
Variable options : list Option.
Variable id : string.
Variable r : http.Request.

Let h : handlerOptions := applyOptions options.
Let run : M unit := Handle useCase options id r.



(** C5, amended. When bind, validation and the use case succeed, the
    success code is one [WriteHeader] accepts, and the encoder, called after
    that status is written, returns no error on the response, the status
    written is the success code in force, 200 when no option sets the code,
    and the body is what the encoder wrote for the response. *)
Theorem Handle_success_writes_encoded_response
    (response : Resp) (chunks : list string) :
  succeeds useCase r response ->
  http.valid (successCode h) = true ->
  (forall past, http.calls past = [WriteHeader (successCode h)] ->
     encode h (to_any response) past = (Ok None, map Write chunks)) ->
  outcome run = Ok tt
  /\ http.calls (trace run) = WriteHeader (successCode h) :: map Write chunks
  /\ (http.informational (successCode h) = false ->
        http.status (http.served (trace run)) = successCode h)
  /\ (http.bodyAllowed (successCode h) = true ->
        http.body (http.served (trace run)) = concat_strings chunks)
  /\ (Forall keeps_code options -> successCode h = http.StatusOK).
Proof.
  intros (req & req' & said & Hb & Hv & Hu) Hcode Henc.
  subst run h. unfold outcome, trace, Handle.
  destruct (applyOptions_total options) as (E & l & HE & Hl).
  set (h := applyOptions options) in *.
  rewrite Hb. handler_steps Hl. rewrite Hv. handler_steps Hl.
  rewrite Hu. handler_steps Hl.
  match goal with |- context [encode h ?src ?past] =>
    rewrite (Henc past) by (calls_steps; reflexivity) end.
  handler_steps Hl.
  split; [reflexivity|]. split; [calls_steps; reflexivity|].
  split; [|split].
  - intros Hfin. status_steps. now apply served_status_first.
  - intros Ha. served_steps. rewrite served_body_after by assumption.
    body_steps. reflexivity.
  - intros Hk. subst h. rewrite applyOptions_successCode. cbv zeta.
    now rewrite keeps_code_run.
Qed.

(** When the response cannot be encoded, [http.Error] is called after the
    success status is written, and that status is the one the client
    receives. *)
Lemma Handle_encoding_failure
    (response : Resp) (e : error) (chunks : list string) :
  succeeds useCase r response ->
  http.valid (successCode h) = true ->
  http.informational (successCode h) = false ->
  (forall past, http.calls past = [WriteHeader (successCode h)] ->
     encode h (to_any response) past = (Ok (Some e), map Write chunks)) ->
  outcome run = Ok tt
  /\ http.calls (trace run)
     = (WriteHeader (successCode h) :: map Write chunks
        ++ encoding_failure_calls e)%list
  /\ http.status (http.served (trace run)) = successCode h.
Proof.
  intros (req & req' & said & Hb & Hv & Hu) Hcode Hfin Henc.
  subst run h. unfold outcome, trace, Handle.
  destruct (applyOptions_total options) as (E & l & HE & Hl).
  set (h := applyOptions options) in *. unfold encoding_failure_calls.
  rewrite Hb. handler_steps Hl. rewrite Hv. handler_steps Hl.
  rewrite Hu. handler_steps Hl.
  match goal with |- context [encode h ?src ?past] =>
    rewrite (Henc past) by (calls_steps; reflexivity) end.
  handler_steps Hl.
  destruct (revealed e) as [errx|]; handler_steps Hl.
  - match goal with |- context [http.Error ?m ?c ?past] =>
      rewrite (Error_superfluous m c past)
        by (apply (proj1 (state_after_status past (map Write chunks)
                            (successCode h)
                            ltac:(calls_steps; reflexivity) Hfin)))
    end.
    handler_steps Hl. split; [reflexivity|].
    split; [calls_steps; reflexivity|].
    status_steps. now apply served_status_first.
  - split; [reflexivity|]. split; [calls_steps; reflexivity|].
    status_steps. now apply served_status_first.
Qed.


(** A failure after bind that the handler does not reveal is answered by
    [http.Error] with 500 and nothing else. *)
Lemma unrevealed_after_bind (err : error) :
  revealed err = None ->
  fails_after_bind useCase r err ->
  outcome run = Ok tt
  /\ http.calls (trace run) = trace internalServerError
  /\ http.status (http.served (trace run)) = 500
  /\ http.body (http.served (trace run))
     = ("Internal Server Error" ++ newline)%string.
Proof.
  intros Hrev Hfail. subst run h. unfold outcome, trace, Handle.
  destruct (applyOptions_total options) as (E & l & HE & Hl).
  set (h := applyOptions options) in *.
  destruct Hfail as [req req' Hb Hv|req req' said response Hb Hv Hu].
  - rewrite Hb. handler_steps Hl. rewrite Hv. handler_steps Hl.
    rewrite Hrev. handler_steps Hl.
    split; [reflexivity|]. split; [reflexivity|]. split; reflexivity.
  - rewrite Hb. handler_steps Hl. rewrite Hv. handler_steps Hl.
    rewrite Hu. handler_steps Hl. rewrite Hrev. handler_steps Hl.
    split; [reflexivity|]. split; [calls_steps; reflexivity|]. split.
    + status_steps. reflexivity.
    + served_steps. reflexivity.
Qed.

(** An error the handler does not reveal, before the response is encoded.
    At bind time the handler writes 500 and encodes the generic message (and
    calls [http.Error] with 500 if that fails); at validation and in the use
    case it calls [http.Error] with 500.  Nothing of the error itself is in
    the calls: they are the same for every such error. *)
Theorem Handle_hides_other_errors (err : error) :
  revealed err = None ->
  writes_only h ->
  ((exists req, Bind zero r = (req, Some err)) ->
     exists failed chunks past,
       http.calls past = [WriteHeader 500]
       /\ encode h (AnyDefaultResponse
                      {| Message := http.StatusText http.StatusInternalServerError |})
            past
          = (Ok failed, map Write chunks)
       /\ http.calls (trace run)
          = (WriteHeader 500 :: map Write chunks ++ after_encoding failed)%list
       /\ http.status (http.served (trace run)) = 500)
  /\ (fails_after_bind useCase r err ->
        http.calls (trace run) = trace internalServerError
        /\ http.status (http.served (trace run)) = 500
        /\ http.body (http.served (trace run))
           = ("Internal Server Error" ++ newline)%string).
Proof.
  intros Hrev Hwo. split.
  - subst run h. unfold outcome, trace, Handle.
    destruct (applyOptions_total options) as (E & l & HE & Hl).
    set (h := applyOptions options) in *.
    intros (req & Hb). rewrite Hb. handler_steps Hl.
    rewrite Hrev. handler_steps Hl.
    match goal with |- context [encode h ?src ?past] =>
      destruct (Hwo src past) as (failed & chunks & Henc); rewrite Henc;
      destruct failed as [e|]; handler_steps Hl;
      [exists (Some e), chunks, past|exists None, chunks, past] end;
      (split; [reflexivity|]); (split; [exact Henc|]);
      (split; [calls_steps; reflexivity|]);
      status_steps; now apply served_status_first.
  - intros Hfail. exact (proj2 (unrevealed_after_bind err Hrev Hfail)).
Qed.

End Handler.

(** Two requests that fail after bind with errors the handler does not
    reveal are answered with the same calls, whatever the two errors, use
    cases and requests are. *)
Theorem hidden_errors_indistinguishable `{JsonLib}
    {Req1 Resp1 Req2 Resp2 : Type}
    `{httpx.Request Req1} `{ToAny Resp1} `{httpx.Request Req2} `{ToAny Resp2}
    (useCase1 : httpx.UseCaseFunc Req1 Resp1)
    (useCase2 : httpx.UseCaseFunc Req2 Resp2)
    (options : list httpx.Option) (id1 id2 : string)
    (r1 r2 : http.Request) (err1 err2 : error) :
  spec.fails_after_bind useCase1 r1 err1 ->
  spec.fails_after_bind useCase2 r2 err2 ->
  spec.revealed err1 = None -> spec.revealed err2 = None ->
  http.calls (trace (httpx.Handle useCase1 options id1 r1))
  = http.calls (trace (httpx.Handle useCase2 options id2 r2)).
Proof.
  intros Hf1 Hf2 Hr1 Hr2.
  destruct (unrevealed_after_bind useCase1 options id1 r1 err1 Hr1 Hf1)
    as (_ & -> & _).
  destruct (unrevealed_after_bind useCase2 options id2 r2 err2 Hr2 Hf2)
    as (_ & -> & _).
  reflexivity.
Qed.

(** ** Runs under the default JSON encoder *)

Section Runs.

Import httpx spec sample.
#[local] Existing Instance gojson.lib.

(** With no option the encoder is the JSON one. *)
Lemma no_options_writes_only : writes_only (applyOptions []).
Proof. apply JsonEncoder_writes_only. reflexivity. Qed.





(** C2, at the encoding stage: the use case succeeds, the response cannot
    be encoded, the encoder's error is unclassified, and the client receives
    the success status 200 with the generic text, not 500. *)
Lemma encoding_error_answers_with_success_status :
  succeeds subscribe (get "bob") {| chan_id := 7 |}
  /\ (forall past,
        encode (applyOptions []) (to_any {| chan_id := 7 |}) past
        = (Ok (Some (Opaque "json: unsupported type: chan int")), []))
  /\ revealed (Opaque "json: unsupported type: chan int") = None
  /\ http.status (http.served (trace (Handle subscribe [] id (get "bob")))) = 200
  /\ http.status_writes (http.calls (trace (Handle subscribe [] id (get "bob"))))
     = [200; 500].
Proof.
  split; [|repeat split].
  exists {| x := "bob" |}, {| x := "bob" |}, []. repeat split.
Qed.

(** C3, when the error body cannot be encoded: the bind error is external
    with code 400, the encoder refuses the message object, the failure is
    logged, and [http.Error] sets its headers and writes 500 after the status
    400 is out: the client receives status 400 with the generic text as body,
    not a 500 response.  Besides, an external classified error in the chain
    of a bind error is revealed only when [As] finds it: behind an internal
    one the answer is 500 with the generic message. *)
Lemma failed_error_body_keeps_error_status :
  let t := trace (Handle greet [WithEncoder (Some textEncoder)] id (get "")) in
  let t' := trace (Handle greet [] id (get "??")) in
  As (snd (Bind zero (get ""))) = (Some missing_field, true)
  /\ Internal missing_field = false
  /\ map slog.r_msg (http.logs t)
     = ["failed to bind request"; "failed to write error response"]
  /\ http.calls t
     = WriteHeader 400 :: http.Error_calls "Internal Server Error" 500
  /\ http.status_writes t = [400; 500]
  /\ http.status (http.served t) = 400
  /\ http.body (http.served t) = ("Internal Server Error" ++ newline)%string
  /\ snd (Bind zero (get "??")) = Some both
  /\ chain both = [both; Classified corrupt; Classified reserved]
  /\ Internal reserved = false
  /\ http.status (http.served t') = 500
  /\ http.body (http.served t')
     = ("{" ++ dquote ++ "message" ++ dquote ++ ":" ++ dquote
        ++ "Internal Server Error" ++ dquote ++ "}" ++ newline)%string.
Proof. repeat split. Qed.



(** C5, as stated, fails: bind, validation and the use case succeed, the
    encoder writes nothing for the response and returns an error, and the
    body is the generic error text. *)
Lemma unencodable_response_body_is_error_text :
  succeeds subscribe (get "bob") {| chan_id := 7 |}
  /\ trace (encode (applyOptions []) (to_any {| chan_id := 7 |})) = []
  /\ http.body (http.served (trace (Handle subscribe [] id (get "bob"))))
     = ("Internal Server Error" ++ newline)%string.
Proof.
  split; [|split; reflexivity].
  exists {| x := "bob" |}, {| x := "bob" |}, []. repeat split.
Qed.

(** A greeting, answered with the configured code 201. *)
Lemma success_witness :
  succeeds greet (get "bob") {| Message := "hello bob" |} /\
  http.valid (successCode (applyOptions [WithSuccessCode 201])) = true /\
  (forall past,
     http.calls past
     = [WriteHeader (successCode (applyOptions [WithSuccessCode 201]))] ->
     encode (applyOptions [WithSuccessCode 201])
       (to_any {| Message := "hello bob" |}) past
     = (Ok None, map Write [hello_bob])) /\
  outcome (Handle greet [WithSuccessCode 201] id (get "bob")) = Ok tt
  /\ http.calls (trace (Handle greet [WithSuccessCode 201] id (get "bob")))
     = [WriteHeader 201; Write hello_bob]
  /\ (http.informational (successCode (applyOptions [WithSuccessCode 201])) = false ->
      http.status (http.served (trace (Handle greet [WithSuccessCode 201] id (get "bob"))))
      = successCode (applyOptions [WithSuccessCode 201]))
  /\ (http.bodyAllowed (successCode (applyOptions [WithSuccessCode 201])) = true ->
      http.body (http.served (trace (Handle greet [WithSuccessCode 201] id (get "bob"))))
      = concat_strings [hello_bob])
  /\ (Forall keeps_code [WithSuccessCode 201] ->
      successCode (applyOptions [WithSuccessCode 201]) = http.StatusOK).
Proof.
  assert (Hs : succeeds greet (get "bob") {| Message := "hello bob" |}).
  { exists {| x := "bob" |}, {| x := "bob" |}, []. repeat split. }
  assert (He : forall past,
             http.calls past
             = [WriteHeader (successCode (applyOptions [WithSuccessCode 201]))] ->
             encode (applyOptions [WithSuccessCode 201])
               (to_any {| Message := "hello bob" |}) past
             = (Ok None, map Write [hello_bob])).
  { intros past Hc.
    exact (JsonEncoder_after_status (applyOptions [WithSuccessCode 201])
             _ _ 201 past eq_refl eq_refl eq_refl Hc). }
  split; [exact Hs|]. split; [reflexivity|]. split; [exact He|].
  exact (Handle_success_writes_encoded_response greet [WithSuccessCode 201] id
           (get "bob") {| Message := "hello bob" |} [hello_bob] Hs eq_refl He).
Defined.

(** Two settings of the success code with an encoder set between them: the
    later one, 204, is the code in force. *)
Lemma last_write_wins_witness :
  provided (WithSuccessCode 201)
  /\ same_field (WithSuccessCode 201) (WithSuccessCode 204)
  /\ Forall provided [WithEncoder (Some textEncoder)]
  /\ applyOptions ([WithLogger None] ++ [WithSuccessCode 201; WithSuccessCode 201])
     = applyOptions ([WithLogger None] ++ [WithSuccessCode 201])
  /\ applyOptions ([WithLogger None] ++ WithSuccessCode 201
                     :: [WithEncoder (Some textEncoder)]
                     ++ WithSuccessCode 204 :: [WithLogger None])
     = applyOptions ([WithLogger None] ++ [WithEncoder (Some textEncoder)]
                     ++ WithSuccessCode 204 :: [WithLogger None])
  /\ successCode
       (applyOptions ([WithLogger None] ++ WithSuccessCode 201
                        :: [WithEncoder (Some textEncoder)]
                        ++ WithSuccessCode 204 :: [WithLogger None]))
     = 204.
Proof.
  assert (Hp : provided (WithSuccessCode 201)) by constructor.
  assert (Hs : same_field (WithSuccessCode 201) (WithSuccessCode 204))
    by constructor.
  assert (Hm : Forall provided [WithEncoder (Some textEncoder)])
    by (repeat constructor).
  split; [exact Hp|]. split; [exact Hs|]. split; [exact Hm|].
  destruct (applyOptions_last_write_wins
              (WithSuccessCode 201) (WithSuccessCode 204)
              [WithLogger None] [WithEncoder (Some textEncoder)]
              [WithLogger None] Hp Hs Hm) as (Hsame & Hlater & Hcode & _).
  split; [exact Hsame|]. split; [exact Hlater|].
  apply (Hcode 204 eq_refl). repeat constructor.
Defined.

(** A negative code after a positive one, and no code at all. *)
Lemma successCode_positive_witness :
  -1 <= 0 /\
  0 < successCode (applyOptions [WithSuccessCode 201])
  /\ successCode (applyOptions ([WithSuccessCode 201]
                                 ++ WithSuccessCode (-1) :: [WithLogger None]))
     = http.StatusOK
  /\ successCode (applyOptions [WithLogger None]) = http.StatusOK.
Proof.
  split; [lia|].
  apply (applyOptions_successCode_positive
           [WithSuccessCode 201] [WithLogger None] (-1)).
  - lia.
  - repeat constructor.
Defined.

(** C8. [Health] returns [DefaultResponse{Message: "OK"}] and a nil error,
    whatever the context and the request; a handler around it with no option,
    for a request type that takes [Bind] and [Validate] from [DefaultRequest],
    answers 200 with the JSON object of the message "OK" (which the encoder
    ends with a newline). *)
Theorem Health_answers_OK (u : health.useCase) (ctx : http.Context)
    (request : DefaultRequest) (S : Stringer DefaultRequest)
    (rid : string) (r : http.Request) :
  let handler :=
    @Handle DefaultRequest DefaultResponse gojson.lib
      (mkRequestClass DefaultRequest DefaultRequest_Bind
         DefaultRequest_Validate S mkDefaultRequest)
      DefaultResponse_ToAny (health.Health u) [] in
  snd (health.Health u ctx request) = ({| Message := "OK" |}, None)
  /\ outcome (handler rid r) = Ok tt
  /\ http.calls (trace (handler rid r))
     = [WriteHeader 200; Write (message_OK ++ newline)]
  /\ http.status (http.served (trace (handler rid r))) = 200
  /\ http.body (http.served (trace (handler rid r))) = (message_OK ++ newline)%string.
Proof. repeat split. Qed.


(** A use case that fails with a database error. *)
Lemma hidden_error_witness :
  revealed (Opaque "pq: password authentication failed for user admin") = None /\
  fails_after_bind greet (get "db")
    (Opaque "pq: password authentication failed for user admin") /\
  http.calls (trace (Handle greet [] id (get "db"))) = trace internalServerError
  /\ http.status (http.served (trace (Handle greet [] id (get "db")))) = 500
  /\ http.body (http.served (trace (Handle greet [] id (get "db"))))
     = ("Internal Server Error" ++ newline)%string.
Proof.
  assert (Hf : fails_after_bind greet (get "db")
                 (Opaque "pq: password authentication failed for user admin")).
  { eapply fails_useCase; reflexivity. }
  split; [reflexivity|]. split; [exact Hf|].
  exact (proj2 (Handle_hides_other_errors greet [] id (get "db")
                  (Opaque "pq: password authentication failed for user admin")
                  eq_refl no_options_writes_only) Hf).
Defined.

(** A database error in the use case and an internal validation error. *)
Lemma indistinguishable_witness :
  fails_after_bind greet (get "db")
    (Opaque "pq: password authentication failed for user admin") /\
  fails_after_bind greet (get "?") (Classified corrupt) /\
  http.calls (trace (Handle greet [] id (get "db")))
  = http.calls (trace (Handle greet [] id (get "?"))).
Proof.
  assert (Hf1 : fails_after_bind greet (get "db")
                  (Opaque "pq: password authentication failed for user admin")).
  { eapply fails_useCase; reflexivity. }
  assert (Hf2 : fails_after_bind greet (get "?") (Classified corrupt)).
  { eapply fails_validate; reflexivity. }
  split; [exact Hf1|]. split; [exact Hf2|].
  exact (hidden_errors_indistinguishable greet greet [] id id
           (get "db") (get "?") _ _ Hf1 Hf2 eq_refl eq_refl).
Defined.

End Runs.
(** ** The logger factory *)

Section Slogx.

Import cover.

Definition run_log_options (ss : list log_setting) (l0 : slogx.logger) : slogx.logger :=
  fold_left (fun l opt => opt l) (map log_option ss) l0.

Lemma run_log_options_fields (ss : list log_setting) (l0 : slogx.logger) :
  slogx.handler (run_log_options ss l0) = slogx.handler l0
  /\ slogx.w (run_log_options ss l0)
     = match latest pick_writer ss with Some w => w | None => slogx.w l0 end
  /\ slogx.level (run_log_options ss l0)
     = match latest pick_level ss with Some v => v | None => slogx.level l0 end
  /\ slogx.source (run_log_options ss l0)
     = match latest pick_source ss with Some b => b | None => slogx.source l0 end.
Proof.
  revert l0. induction ss as [|x ss IH]; intros l0; [repeat split|].
  unfold run_log_options in *. simpl.
  destruct (IH (log_option x l0)) as (Hh & Hw & Hl & Hs).
  rewrite Hh, Hw, Hl, Hs. clear.
  destruct x; simpl;
    destruct (latest pick_writer ss), (latest pick_level ss),
      (latest pick_source ss); repeat split.
Qed.

(** The logger [New] builds is decided by the last setting of each field:
    a JSON handler on the last writer given, on standard output when none is
    given or the last one is nil; at the last level given, info when none is;
    with call sites exactly when the last [WithSource] says so. *)
Theorem slogx_New_last_settings (ss : list log_setting) :
  slogx.New (map log_option ss)
  = slog.New
      (slog.NewJSONHandler
         (match latest pick_writer ss with
          | Some (Some sink) => sink
          | _ => slog.Stdout
          end)
         (match latest pick_level ss with
          | Some level => level
          | None => slog.LevelInfo
          end)
         (match latest pick_source ss with
          | Some source => source
          | None => false
          end)).
Proof.
  unfold slogx.New.
  destruct (run_log_options_fields ss
              {| slogx.handler := None; slogx.w := None;
                 slogx.level := 0; slogx.source := false |})
    as (Hh & Hw & Hl & Hs).
  unfold run_log_options in *. rewrite Hh, Hw, Hl, Hs. simpl.
  destruct (latest pick_writer ss) as [[sink|]|]; reflexivity.
Qed.

End Slogx.

(** ** More on the handler options *)

Section MoreOptions.

Import httpx spec cover.
Context `{JsonLib}.

Lemma run_options_fields (ss : list setting) (h0 : handlerOptions) :
  successCode (run_options (map option_of ss) h0)
  = match latest pick_code ss with Some c => c | None => successCode h0 end
  /\ encoder (run_options (map option_of ss) h0)
     = match latest pick_encoder ss with Some e => e | None => encoder h0 end
  /\ logger (run_options (map option_of ss) h0)
     = match latest pick_logger ss with Some l => l | None => logger h0 end.
Proof.
  revert h0. induction ss as [|x ss IH]; intros h0; [repeat split|].
  unfold run_options in *. simpl.
  destruct (IH (option_of x h0)) as (Hc & He & Hl).
  rewrite Hc, He, Hl. clear.
  destruct x; simpl;
    destruct (latest pick_code ss), (latest pick_encoder ss),
      (latest pick_logger ss); repeat split.
Qed.

(** The configuration in force is decided by the last setting of each field.
    The success code is the last code given when that is positive and 200
    otherwise, also when an earlier setting was positive; the encoder is the
    last one given, the JSON encoder when none is given or the last one is
    nil; the logger is the last one given, the default logger of slogx when
    none is given or the last one is nil. *)
Theorem applyOptions_last_settings (ss : list setting) :
  applyOptions (map option_of ss)
  = {| successCode :=
         match latest pick_code ss with
         | Some code => if code <=? 0 then http.StatusOK else code
         | None => http.StatusOK
         end
     ; encoder :=
         Some match latest pick_encoder ss with
              | Some (Some E) => E
              | _ => encoder.JsonEncoder
              end
     ; logger :=
         Some match latest pick_logger ss with
              | Some (Some l) => l
              | _ => slogx.New []
              end |}.
Proof.
  rewrite applyOptions_eq.
  destruct (run_options_fields ss zero_handlerOptions) as (Hc & He & Hl).
  destruct (run_options (map option_of ss) zero_handlerOptions) as [c e l].
  simpl in Hc, He, Hl. subst c e l. unfold defaults. cbn.
  destruct (latest pick_code ss) as [code|]; cbn;
    [destruct (code <=? 0); cbn|];
    destruct (latest pick_encoder ss) as [[E|]|]; cbn;
    destruct (latest pick_logger ss) as [[l|]|]; reflexivity.
Qed.

(** Two neighbouring options that set different fields can be exchanged:
    the configuration does not depend on their order. *)
Theorem applyOptions_different_fields_commute
    (o1 o2 : Option) (opts rest : list Option) :
  different_fields o1 o2 ->
  applyOptions (opts ++ o1 :: o2 :: rest) = applyOptions (opts ++ o2 :: o1 :: rest).
Proof.
  intros Hd. rewrite !applyOptions_eq, !run_options_app. simpl.
  do 2 f_equal. destruct Hd; reflexivity.
Qed.

Lemma keeps_encoder_WithSuccessCode c : keeps_encoder (WithSuccessCode c).
Proof. intros h. reflexivity. Qed.

Lemma keeps_encoder_WithLogger l : keeps_encoder (WithLogger l).
Proof. intros h. reflexivity. Qed.

End MoreOptions.

(** ** More on classified errors *)

Section MoreErrors.

Import cover spec.

Lemma errors_as_wrap_all (msgs : list string) (err : error) :
  errors_as (wrap_all msgs err) = errors_as err.
Proof. induction msgs as [|m msgs IH]; simpl; auto. Qed.

(** A classified error built by [New] and wrapped any number of times is
    found again by [As], with the code, the flag and the message it was built
    with; an unclassified error stays unclassified however it is wrapped. *)
Theorem As_finds_New_through_wrapping
    (msgs : list string) (isInternal : bool) (code : Z) (message other : string) :
  (exists errx,
     As (Some (wrap_all msgs (Classified (errorsx.New isInternal code message))))
     = (Some errx, true)
     /\ Internal errx = isInternal /\ Code errx = code /\ Error errx = message)
  /\ As (Some (wrap_all msgs (Opaque other))) = (None, false).
Proof.
  unfold As, errors_As. rewrite !errors_as_wrap_all. simpl. split; [|reflexivity].
  eexists. repeat split.
Qed.

(** The first classified error of the chain decides alone what the handler
    reveals: it is revealed when it is external, and when it is internal
    nothing is, whatever follows it in the chain; a chain without a
    classified error reveals nothing. *)
Theorem external_follows_first_classified
    (err : error) (before after : list error) (e : Errorx) :
  unclassified before ->
  (chain err = (before ++ Classified e :: after)%list ->
     httpx.external err = ret (if Internal e then None else Some e))
  /\ (chain err = before -> httpx.external err = ret None).
Proof.
  intros Hb. rewrite external_eq. unfold revealed. rewrite errors_as_chain.
  split; intros Hc.
  - assert (Hf : first_classified (chain err) = Some e).
    { apply first_classified_Some. now exists before, after. }
    now rewrite Hf.
  - assert (Hf : first_classified (chain err) = None).
    { apply first_classified_None. now rewrite Hc. }
    now rewrite Hf.
Qed.

End MoreErrors.

(** ** More on the handler *)

(** Run the handler to its end, whatever the encoder returns and whether or
    not the statuses are accepted. *)
Ltac run_to_end Hwo Hl :=
  handler_steps Hl;
  try first
    [ status_cases; run_to_end Hwo Hl
    | match goal with
      | |- context [httpx.encode ?h ?src ?past] =>
          let failed := fresh "failed" in
          let chunks := fresh "chunks" in
          let Henc := fresh "Henc" in
          destruct (Hwo src past) as (failed & chunks & Henc); rewrite Henc;
          destruct failed as [failed|]; run_to_end Hwo Hl
      end
    | match goal with
      | |- context [spec.revealed ?e] =>
          let errx := fresh "errx" in
          destruct (spec.revealed e) as [errx|]; run_to_end Hwo Hl
      end ].

Section MoreHandler.

Import httpx spec cover.
Context `{JsonLib} {Req Resp : Type} `{Request Req} `{ToAny Resp}.
Variable useCase : UseCaseFunc Req Resp.
Variable options : list Option.
Variable id : string.
Variable r : http.Request.

Let h : handlerOptions := applyOptions options.
Let run : M unit := Handle useCase options id r.

(** After bind and validation have succeeded the handler logs the request,
    then comes what the use case logs, then the response when the use case
    succeeded, and nothing else: neither a failure of the use case nor a
    failure to encode is logged. *)
Theorem Handle_logs_after_validation
    (req req' : Req) (said : list slog.Record_) (response : Resp)
    (err : option error) :
  Bind zero r = (req, None) ->
  Validate req = (req', None) ->
  useCase (http.ctx r) req' = (said, (response, err)) ->
  writes_only h ->
  exists l,
    logger h = Some l
    /\ http.logs (trace run)
       = (request_record l id (String_ req) :: said
          ++ match err with
             | None => [response_record l id (to_any response)]
             | Some _ => []
             end)%list.
Proof.
  intros Hb Hv Hu Hwo. subst run h. unfold trace, Handle.
  destruct (applyOptions_total options) as (E & l & HE & Hl).
  set (h := applyOptions options) in *.
  exists l. split; [exact Hl|].
  rewrite Hb. handler_steps Hl. rewrite Hv. handler_steps Hl.
  rewrite Hu. handler_steps Hl.
  destruct err as [err|]; run_to_end Hwo Hl; logs_steps; reflexivity.
Qed.

Ltac own_or_said :=
  match goal with
  | Hin : In _ (_ :: _) |- _ =>
      destruct Hin as [<- | Hin]; [left; split; reflexivity|]; own_or_said
  | Hin : In _ (_ ++ _)%list |- _ =>
      apply in_app_or in Hin; destruct Hin as [Hin | Hin]; own_or_said
  | Hin : In _ [] |- _ => destruct Hin
  | Hin : In ?rec ?said, Hu : useCase _ ?req = (?said, _) |- _ =>
      right; exists req; rewrite Hu; exact Hin
  end.

(** Every record in the log of a request is either the use case's own or is
    logged on the configured logger under the identifier drawn for the
    request. *)
Theorem Handle_logs_correlated :
  writes_only h ->
  exists l,
    logger h = Some l
    /\ forall rec, In rec (http.logs (trace run)) ->
         own_record l id rec
         \/ exists req, In rec (fst (useCase (http.ctx r) req)).
Proof.
  intros Hwo. subst run h. unfold trace, Handle.
  destruct (applyOptions_total options) as (E & l & HE & Hl).
  set (h := applyOptions options) in *.
  exists l. split; [exact Hl|]. intros rec.
  destruct (Bind zero r) as [req [err|]]; handler_steps Hl.
  - run_to_end Hwo Hl; logs_steps; intros Hin; own_or_said.
  - destruct (Validate req) as [req' [err|]]; handler_steps Hl.
    + run_to_end Hwo Hl; logs_steps; intros Hin; own_or_said.
    + destruct (useCase (http.ctx r) req') as [said [response [err|]]] eqn:Hu;
        run_to_end Hwo Hl; logs_steps; intros Hin; own_or_said.
Qed.

(** The calls of a request that succeeds, for an encoding that succeeds. *)
Lemma success_calls (response : Resp) (chunks : list string) :
  succeeds useCase r response ->
  http.valid (successCode h) = true ->
  (forall past, http.calls past = [WriteHeader (successCode h)] ->
     encode h (to_any response) past = (Ok None, map Write chunks)) ->
  outcome run = Ok tt
  /\ http.calls (trace run) = WriteHeader (successCode h) :: map Write chunks.
Proof.
  intros (req & req' & said & Hb & Hv & Hu) Hcode Henc.
  subst run h. unfold outcome, trace, Handle.
  destruct (applyOptions_total options) as (E & l & HE & Hl).
  set (h := applyOptions options) in *.
  rewrite Hb. handler_steps Hl. rewrite Hv. handler_steps Hl.
  rewrite Hu. handler_steps Hl.
  match goal with |- context [encode h ?src ?past] =>
    rewrite (Henc past) by (calls_steps; reflexivity) end.
  handler_steps Hl. split; [reflexivity|]. calls_steps. reflexivity.
Qed.

(** With no option that sets the encoder the response is encoded as JSON:
    when bind, validation and the use case succeed, the success code is a
    status [WriteHeader] accepts and that admits a body, and the response can
    be marshalled, the handler writes the success code and then, in one
    write, the JSON bytes followed by a newline. *)
Theorem Handle_default_json_body (response : Resp) (b : string) :
  Forall keeps_encoder options ->
  succeeds useCase r response ->
  json_marshal (to_any response) = inl b ->
  http.valid (successCode h) = true ->
  http.bodyAllowed (successCode h) = true ->
  outcome run = Ok tt
  /\ http.calls (trace run)
     = [WriteHeader (successCode h); Write (b ++ newline)].
Proof.
  intros Hk Hs Hm Hcode Ha.
  apply (success_calls response [(b ++ newline)%string] Hs Hcode).
  intros past Hc.
  apply (JsonEncoder_after_status h (to_any response) b (successCode h) past);
    try assumption.
  subst h. rewrite applyOptions_eq, defaults_encoder.
  now rewrite keeps_encoder_run by assumption.
Qed.

(** Before the use case is reached the handler does not depend on it: when
    bind or validation fails, the run is the same whatever the use case and
    its response type are, so the business logic is not invoked. *)
Theorem Handle_stops_before_useCase {Resp' : Type} `{ToAny Resp'}
    (useCase' : UseCaseFunc Req Resp') :
  stops_before_useCase r ->
  Handle useCase options id r = Handle useCase' options id r.
Proof.
  intros [(req & err & Hb)|(req & req' & err & Hb & Hv)]; unfold Handle.
  - rewrite Hb. reflexivity.
  - rewrite Hb, Hv. reflexivity.
Qed.

End MoreHandler.

Section XmlHandler.

Import httpx spec cover.
Context `{JsonLib} `{XmlLib} {Req Resp : Type} `{Request Req} `{ToAny Resp}.

(** When the last option that sets the encoder gives [XmlEncoder], a
    response that XML can marshal is written as XML: after a success code
    that [WriteHeader] accepts and that admits a body, the handler writes the
    chunks of the XML encoder, in order, and nothing else. *)
Theorem Handle_xml_body (useCase : UseCaseFunc Req Resp)
    (opts others : list Option) (id : string) (r : http.Request)
    (response : Resp) (chunks : list string) :
  Forall keeps_encoder others ->
  succeeds useCase r response ->
  xml_marshal (to_any response) = (chunks, None) ->
  let options := (opts ++ WithEncoder (Some encoder.XmlEncoder) :: others)%list in
  http.valid (successCode (applyOptions options)) = true ->
  http.bodyAllowed (successCode (applyOptions options)) = true ->
  outcome (Handle useCase options id r) = Ok tt
  /\ http.calls (trace (Handle useCase options id r))
     = WriteHeader (successCode (applyOptions options)) :: map Write chunks.
Proof.
  intros Hk Hs Hm options Hcode Ha.
  apply (success_calls useCase options id r response chunks Hs Hcode).
  intros past Hc.
  apply (XmlEncoder_after_status (applyOptions options) (to_any response)
           chunks None (successCode (applyOptions options)) past);
    try assumption.
  unfold options. rewrite applyOptions_eq, defaults_encoder.
  rewrite run_options_app. simpl.
  now rewrite keeps_encoder_run by assumption.
Qed.

End XmlHandler.

Section DefaultRequests.

Import httpx cover.
Context `{JsonLib} {Resp : Type} `{ToAny Resp}.

(** A handler whose request type takes [Bind] and [Validate] from
    [DefaultRequest]: [Bind] and [Validate] return a nil error and leave the
    request as it is, so no request stops before the use case; and the
    handler reads nothing of the request but its context: two requests with
    the same context are handled alike, whatever their method, URL and
    body. *)
Theorem DefaultRequest_ignores_request
    (S : Stringer DefaultRequest)
    (useCase : UseCaseFunc DefaultRequest Resp)
    (options : list Option) (id : string) (r1 r2 : http.Request) :
  http.ctx r1 = http.ctx r2 ->
  let R := mkRequestClass DefaultRequest DefaultRequest_Bind
             DefaultRequest_Validate S mkDefaultRequest in
  let handler := @Handle DefaultRequest Resp _ R _ useCase options in
  (forall req r, Bind (Bindable := @Request_Bindable _ R) req r = (req, None))
  /\ (forall req, Validate (Validatable := @Request_Validatable _ R) req
                  = (req, None))
  /\ (forall r, stops_before_useCase (H := R) r -> False)
  /\ handler id r1 = handler id r2.
Proof.
  intros Hctx R handler. repeat apply conj.
  - reflexivity.
  - reflexivity.
  - intros r [(req & err & Hb)|(req & req' & err & Hb & Hv)]; discriminate.
  - unfold handler, Handle. cbn. now rewrite Hctx.
Qed.

End DefaultRequests.

(** ** More runs under the JSON and XML models *)

Section MoreRuns.

Import httpx spec cover sample.
#[local] Existing Instance gojson.lib.
#[local] Existing Instance goxml.lib.

(** A success code and a nil logger, in either order. *)
Lemma different_fields_witness :
  applyOptions ([WithEncoder None] ++ WithSuccessCode 201 :: WithLogger None :: [])
  = applyOptions ([WithEncoder None] ++ WithLogger None :: WithSuccessCode 201 :: []).
Proof.
  exact (applyOptions_different_fields_commute
           (WithSuccessCode 201) (WithLogger None) [WithEncoder None] []
           (code_logger 201 None)).
Defined.

Definition joined : error :=
  Join "validate: state corrupt; x is reserved"
    [Opaque "validate"; Classified corrupt; Classified reserved].

(** An internal error joined before an external one hides it. *)
Lemma first_classified_witness :
  unclassified [joined; Opaque "validate"] /\
  chain joined
  = ([joined; Opaque "validate"] ++ Classified corrupt :: [Classified reserved])%list /\
  external joined = ret None.
Proof.
  assert (Hb : unclassified [joined; Opaque "validate"]).
  { repeat constructor. }
  split; [exact Hb|]. split; [reflexivity|].
  exact (proj1 (external_follows_first_classified joined
                  [joined; Opaque "validate"] [Classified reserved] corrupt Hb)
           eq_refl).
Defined.

Definition stdout_logger : slog.Logger := slogx.New [].

Definition audit_logger : slog.Logger :=
  slogx.New [slogx.WithWriter (Some (slog.OtherSink "audit"))].

(** The health check behind a handler: its own record lies between the
    handler's two, on its own logger and outside the group of the request. *)
Lemma logs_after_validation_witness :
  exists l,
    logger (applyOptions []) = Some l
    /\ http.logs (trace (Handle (health.Health (health.New audit_logger)) []
                           id (get "")))
       = (request_record l id "ping"
          :: [slog.mkRecord audit_logger "" slog.LevelInfo "Health check" []]
          ++ [response_record l id (AnyDefaultResponse {| Message := "OK" |})])%list.
Proof.
  exact (Handle_logs_after_validation
           (health.Health (health.New audit_logger)) [] id (get "")
           mkDefaultRequest mkDefaultRequest
           [slog.mkRecord audit_logger "" slog.LevelInfo "Health check" []]
           {| Message := "OK" |} None
           eq_refl eq_refl eq_refl no_options_writes_only).
Defined.

(** A validation failure that is revealed. *)
Lemma logs_correlated_witness :
  writes_only (applyOptions []) /\
  exists l,
    logger (applyOptions []) = Some l
    /\ forall rec, In rec (http.logs (trace (Handle greet [] id (get "admin")))) ->
         own_record l id rec
         \/ exists req, In rec (fst (greet (http.ctx (get "admin")) req)).
Proof.
  split; [exact no_options_writes_only|].
  exact (Handle_logs_correlated greet [] id (get "admin") no_options_writes_only).
Defined.

Definition hello_bob_json : string :=
  "{" ++ dquote ++ "message" ++ dquote ++ ":" ++ dquote ++ "hello bob"
  ++ dquote ++ "}".

(** A greeting under a configured code and logger, encoded as JSON. *)
Lemma default_json_witness :
  Forall keeps_encoder [WithSuccessCode 201; WithLogger (Some audit_logger)] /\
  succeeds greet (get "bob") {| Message := "hello bob" |} /\
  http.valid (successCode (applyOptions
                [WithSuccessCode 201; WithLogger (Some audit_logger)])) = true /\
  http.bodyAllowed (successCode (applyOptions
                [WithSuccessCode 201; WithLogger (Some audit_logger)])) = true /\
  outcome (Handle greet [WithSuccessCode 201; WithLogger (Some audit_logger)]
             id (get "bob")) = Ok tt
  /\ http.calls (trace (Handle greet
                          [WithSuccessCode 201; WithLogger (Some audit_logger)]
                          id (get "bob")))
     = [WriteHeader 201; Write (hello_bob_json ++ newline)].
Proof.
  assert (Hk : Forall keeps_encoder
                 [WithSuccessCode 201; WithLogger (Some audit_logger)]).
  { repeat constructor. }
  assert (Hs : succeeds greet (get "bob") {| Message := "hello bob" |}).
  { exists {| x := "bob" |}, {| x := "bob" |}, []. repeat split. }
  split; [exact Hk|]. split; [exact Hs|].
  split; [reflexivity|]. split; [reflexivity|].
  exact (Handle_default_json_body greet
           [WithSuccessCode 201; WithLogger (Some audit_logger)] id (get "bob")
           {| Message := "hello bob" |} hello_bob_json Hk Hs eq_refl
           eq_refl eq_refl).
Defined.

Definition hello_bob_xml : string :=
  "<DefaultResponse><Message>hello bob</Message></DefaultResponse>".

(** The same greeting with the XML encoder chosen last. *)
Lemma xml_body_witness :
  Forall keeps_encoder [WithSuccessCode 201] /\
  succeeds greet (get "bob") {| Message := "hello bob" |} /\
  http.valid (successCode (applyOptions
                ([WithEncoder None] ++ WithEncoder (Some encoder.XmlEncoder)
                 :: [WithSuccessCode 201]))) = true /\
  http.bodyAllowed (successCode (applyOptions
                ([WithEncoder None] ++ WithEncoder (Some encoder.XmlEncoder)
                 :: [WithSuccessCode 201]))) = true /\
  outcome (Handle greet
             ([WithEncoder None] ++ WithEncoder (Some encoder.XmlEncoder)
              :: [WithSuccessCode 201]) id (get "bob")) = Ok tt
  /\ http.calls (trace (Handle greet
                          ([WithEncoder None] ++ WithEncoder (Some encoder.XmlEncoder)
                           :: [WithSuccessCode 201]) id (get "bob")))
     = WriteHeader
         (successCode (applyOptions
                         ([WithEncoder None] ++ WithEncoder (Some encoder.XmlEncoder)
                          :: [WithSuccessCode 201])))
       :: map Write [hello_bob_xml].
Proof.
  assert (Hk : Forall keeps_encoder [WithSuccessCode 201]).
  { repeat constructor. }
  assert (Hs : succeeds greet (get "bob") {| Message := "hello bob" |}).
  { exists {| x := "bob" |}, {| x := "bob" |}, []. repeat split. }
  split; [exact Hk|]. split; [exact Hs|].
  split; [reflexivity|]. split; [reflexivity|].
  exact (Handle_xml_body greet [WithEncoder None] [WithSuccessCode 201]
           id (get "bob") {| Message := "hello bob" |} [hello_bob_xml]
           Hk Hs eq_refl eq_refl eq_refl).
Defined.

(** A bind failure, in front of two different use cases. *)
Lemma stops_before_useCase_witness :
  stops_before_useCase (Req := Form) (get "") /\
  Handle greet [] id (get "") = Handle subscribe [] id (get "").
Proof.
  assert (Hs : stops_before_useCase (Req := Form) (get "")).
  { left. eexists _, _. reflexivity. }
  split; [exact Hs|].
  exact (Handle_stops_before_useCase greet [] id (get "") subscribe Hs).
Defined.

(** Two requests that differ in method, URL and body. *)
Lemma ignores_request_witness :
  http.ctx (get "a")
  = http.ctx {| http.Method := "POST"; http.URL := "/health?x=1";
                http.Body := "b"; http.ctx := {| http.ctx_id := 0 |} |} /\
  @Handle DefaultRequest DefaultResponse gojson.lib
    (mkRequestClass DefaultRequest DefaultRequest_Bind
       DefaultRequest_Validate Ping_String mkDefaultRequest)
    DefaultResponse_ToAny (health.Health (health.New stdout_logger)) [] id (get "a")
  = @Handle DefaultRequest DefaultResponse gojson.lib
      (mkRequestClass DefaultRequest DefaultRequest_Bind
         DefaultRequest_Validate Ping_String mkDefaultRequest)
      DefaultResponse_ToAny (health.Health (health.New stdout_logger)) [] id
      {| http.Method := "POST"; http.URL := "/health?x=1";
         http.Body := "b"; http.ctx := {| http.ctx_id := 0 |} |}.
Proof.
  split; [reflexivity|].
  exact (proj2 (proj2 (proj2
           (DefaultRequest_ignores_request Ping_String
              (health.Health (health.New stdout_logger)) [] id (get "a")
              {| http.Method := "POST"; http.URL := "/health?x=1";
                 http.Body := "b"; http.ctx := {| http.ctx_id := 0 |} |}
              eq_refl)))).
Defined.

End MoreRuns.
